(** * Cursor-synchronized scene state evaluator

    A shallow embedding of [app/renderer/sceneStateEvaluator.js]: the
    position matcher ([fileMatchesCursor], [getCurrentLine]), the variable
    snapshotter ([coerceValue], [snapshotVariablesState]), the branch
    selector ([chooseBranchIndex]), the driver ([runToCursor]) and the
    evaluation service ([evaluateAtLine], [evaluateAtCursorDebounced]).

    The ink engine (inkjs [Story]) is an external collaborator.  It is
    modelled as an interface over an abstract engine state; every call that
    mutates the story threads that state explicitly and may end with a thrown
    exception, in which case the mutation done so far is kept (JavaScript has
    no rollback). *)

From Stdlib Require Import ZArith NArith List Bool String Ascii Lia.
From stdpp Require Import base option list gmap pretty.

Set Warnings "-register-all,-abstract-large-number".
Open Scope Z_scope.

(** ** JavaScript values used by the module *)

(** A JavaScript string is a sequence of UTF-16 code units. *)
Definition jsstring : Type := list N.

Definition js (s : string) : jsstring :=
  List.map N_of_ascii (list_ascii_of_string s).

(** [!s] for a value that is a string, [null] or [undefined]:
    [None] stands for [null]/[undefined]; the empty string is falsy too. *)
Definition str_truthy (o : option jsstring) : bool :=
  match o with
  | Some (_ :: _) => true
  | _ => false
  end.

(** A thrown value, as far as the module looks at it:
    [e.message] and [String(e)]. *)
Record exn : Type := mkExn {
  exn_message : option jsstring;
  exn_toString : jsstring
}.

Definition TypeError : exn :=
  {| exn_message := Some (js "TypeError"); exn_toString := js "TypeError" |}.

(** Result of evaluating an expression that may throw. *)
Inductive outcome (A : Type) : Type :=
| Ret (a : A)
| Throw (e : exn).
Arguments Ret {A} a.
Arguments Throw {A} e.

Definition is_ret {A} (o : outcome A) : bool :=
  match o with Ret _ => true | Throw _ => false end.

(** ** Position matcher *)

Record DebugMetadata : Type := mkDM {
  startLineNumber : Z;
  endLineNumber : Z;
  fileName : option jsstring;
  sourceName : option jsstring
}.

Module Regex.

(** Line terminators: the characters [.] does not match
    (LF, CR, U+2028, U+2029). *)
Definition isLineTerminator (c : N) : bool :=
  ((c =? 10) || (c =? 13) || (c =? 8232) || (c =? 8233))%N.

(** The character class [[/\\]]. *)
Definition isSeparator (c : N) : bool :=
  ((c =? 47) || (c =? 92))%N.

(** Matching [.*[/\\]] at the head of [s], greedy with backtracking:
    [Some rest] is what follows the longest match, [None] is no match.
    The pattern is anchored by [^] and the regex has no [m] flag, so the
    head of the string is the only place a match can start. *)
Fixpoint match_dir (s : jsstring) : option jsstring :=
  match s with
  | [] => None
  | c :: t =>
      if isLineTerminator c then None
      else match match_dir t with
           | Some rest => Some rest
           | None => if isSeparator c then Some t else None
           end
  end.

(** [s.replace(/^.*[/\\]/, "")] *)
Definition replace_dir (s : jsstring) : jsstring :=
  match match_dir s with
  | Some rest => rest
  | None => s
  end.

End Regex.

(** [dm.fileName || dm.sourceName] *)
Definition dm_name (dm : DebugMetadata) : option jsstring :=
  if str_truthy (fileName dm) then fileName dm else sourceName dm.

Definition jsstring_eqb (a b : jsstring) : bool := bool_decide (a = b).

Definition fileMatchesCursor (dm : option DebugMetadata)
    (cursorFilePath : option jsstring) : bool :=
  match dm with
  | None => false
  | Some dm =>
      let name := dm_name dm in
      if negb (str_truthy name) then true
      else if negb (str_truthy cursorFilePath) then true
      else
        let name := default [] name in
        let cursorFilePath := default [] cursorFilePath in
        if jsstring_eqb name cursorFilePath then true
        else
          let dmBase := Regex.replace_dir name in
          let cursorBase := Regex.replace_dir cursorFilePath in
          jsstring_eqb dmBase cursorBase
  end.

(** What [getCurrentLine] returns when it does not return [null]. *)
Record LineInfo : Type := mkLineInfo {
  line : Z;
  endLine : Z;
  fileMatch : bool
}.

Definition getCurrentLine_of (dm : option DebugMetadata)
    (cursorFilePath : option jsstring) : option LineInfo :=
  match dm with
  | None => None
  | Some d =>
      Some {| line := startLineNumber d;
              endLine := endLineNumber d;
              fileMatch := fileMatchesCursor dm cursorFilePath |}
  end.

(** The final path component of a path: what follows its last [/] or [\]
    (the whole path when it has neither). *)
Fixpoint basename (s : jsstring) : jsstring :=
  match s with
  | [] => []
  | c :: t =>
      if existsb Regex.isSeparator t then basename t
      else if Regex.isSeparator c then t
      else s
  end.

Definition single_line (s : jsstring) : bool :=
  forallb (fun c => negb (Regex.isLineTerminator c)) s.

(** ** Variable snapshotter *)

(** The JavaScript values [coerceValue] distinguishes.  A number is kept as
    the bits of its double; no arithmetic is done on it here. *)
Inductive JsVal : Type :=
| VNull
| VUndefined
| VBool (b : bool)
| VNum (bits : N)
| VStr (s : jsstring)
| VBoxed (value : outcome JsVal)
    (* an object with a [value] property; reading it may throw *)
| VObject (valueOf : option (outcome JsVal)).
    (* any other object; [valueOf] when it is a function, with its result *)

Definition coerceValue (val : JsVal) : outcome JsVal :=
  match val with
  | VNull | VUndefined => Ret VNull
  | VBoxed value => value
  | VObject (Some result) => result
  | _ => Ret val
  end.

(** A parsed JSON document. *)
Inductive json : Type :=
| JNull
| JBool (b : bool)
| JNumber (bits : N)
| JString (s : jsstring)
| JArray (items : list json)
| JObject (fields : list (jsstring * json)).

(** [JSON.parse], a built-in of the host. *)
Class JSON : Type := { JSON_parse : jsstring -> outcome json }.

Fixpoint field_lookup (k : jsstring) (fields : list (jsstring * json)) : option json :=
  match fields with
  | [] => None
  | (k', v) :: rest => if jsstring_eqb k' k then Some v else field_lookup k rest
  end.

(** [Object.keys(vs)] for a JSON object or array. *)
Definition Object_keys (vs : json) : list jsstring :=
  match vs with
  | JObject fields => List.map fst fields
  | JArray items => List.map (fun i => js (pretty.pretty i)) (seq 0 (length items))
  | _ => []
  end.

(** The snapshot: the object [vars], keyed by variable name. *)
Abbreviation Vars := (gmap jsstring JsVal).

(** The one key [Object.prototype] answers with an accessor. *)
Definition proto_key : jsstring := js "__proto__".

(** What an object made by [{}] inherits from: [Object.prototype] at first;
    [null] or an object of the engine once the [__proto__] setter has been
    given one. *)
Inductive prototype : Type :=
| ObjectPrototype
| NullPrototype
| ValuePrototype (o : JsVal).

(** The object [vars] while the loop fills it: its own properties and its
    prototype. *)
Record SnapshotObject : Type := mkSnapshotObject {
  own : Vars;
  proto : prototype
}.

Definition empty_object : SnapshotObject :=
  {| own := ∅; proto := ObjectPrototype |}.

(** [typeof v === "object" && v !== null] *)
Definition is_object (v : JsVal) : bool :=
  match v with
  | VBoxed _ | VObject _ => true
  | _ => false
  end.

(** [story.state], with its two serialisers when present and the result of
    calling them ([None]: a falsy result). *)
Record StoryState : Type := mkStoryState {
  ToJson : option (outcome (option jsstring));
  toJson : option (outcome (option jsstring))
}.

(** [story.variablesState]; the accessor is [None] when it is not a function. *)
Record VariablesState : Type := mkVariablesState {
  GetVariableWithName : option (jsstring -> outcome JsVal)
}.

(** A choice offered by the engine; the module only counts them. *)
Record Choice : Type := mkChoice { choice_text : jsstring }.

(** The engine, over its mutable state [St].  A mutating call returns the
    state it leaves behind together with its outcome. *)
Class Engine (St : Type) : Type := {
  canContinue : St -> bool;
  currentChoices : St -> option (list Choice);
  currentDebugMetadata : St -> option DebugMetadata;
  state : St -> option StoryState;
  variablesState : St -> option VariablesState;
  Continue : St -> St * outcome unit;
  ChooseChoiceIndex : nat -> St -> St * outcome unit;
  (* [story.state.LoadJson(json)], a [TypeError] included when [story.state]
     is not there *)
  LoadJson : option jsstring -> St -> St * outcome unit;
  (* [story.onError = function () {}] *)
  set_onError : St -> St;
  (* [obj[key] = value] on an object whose prototype has become the
     engine's object [o]: what the properties and setters inherited from [o]
     make of the assignment, an exception it may throw being caught by the
     caller *)
  assign_inheriting :
    JsVal -> jsstring -> JsVal -> SnapshotObject -> SnapshotObject
}.

(** [vars[name] = value] on the object [vars].  With [Object.prototype] as
    prototype every key makes or updates an own property, except [__proto__]
    when it is not an own property: that assignment goes to the accessor of
    [Object.prototype], which replaces the prototype when the value is an
    object or [null] and does nothing otherwise.  Without a prototype every
    key makes an own property. *)
Definition assign {St : Type} {E : Engine St} (name : jsstring) (value : JsVal)
    (vars : SnapshotObject) : SnapshotObject :=
  match proto vars with
  | ObjectPrototype =>
      if bool_decide (name = proto_key) && bool_decide (own vars !! name = None)
      then
        match value with
        | VNull => {| own := own vars; proto := NullPrototype |}
        | VBoxed _ | VObject _ => {| own := own vars; proto := ValuePrototype value |}
        | _ => vars
        end
      else {| own := <[name := value]> (own vars); proto := ObjectPrototype |}
  | NullPrototype =>
      {| own := <[name := value]> (own vars); proto := NullPrototype |}
  | ValuePrototype o => assign_inheriting o name value vars
  end.

(** Early exit from the [try] block: [Ret None] is [return vars] before the
    loop, [Ret (Some _)] reaches the loop, [Throw _] lands in the outer
    [catch]. *)
Definition snapshot_prepare {J : JSON} {St : Type} {E : Engine St} (story : St)
    : outcome (option (list jsstring * (jsstring -> outcome JsVal))) :=
  match state story with
  | None => Ret None
  | Some st =>
      let jsonStr :=
        match ToJson st with
        | Some call => call
        | None => match toJson st with
                  | Some call => call
                  | None => Ret None
                  end
        end in
      match jsonStr with
      | Throw e => Throw e
      | Ret jsonStr =>
          if negb (str_truthy jsonStr) then Ret None
          else
            match JSON_parse (default [] jsonStr) with
            | Throw e => Throw e
            | Ret JNull => Throw TypeError
            | Ret stateObj =>
                let vs := match stateObj with
                          | JObject fields => field_lookup (js "variablesState") fields
                          | _ => None
                          end in
                match vs with
                | Some ((JObject _) as vs) | Some ((JArray _) as vs) =>
                    let names := Object_keys vs in
                    match variablesState story with
                    | None => Throw TypeError
                    | Some variablesState =>
                        match GetVariableWithName variablesState with
                        | None => Ret None
                        | Some getVarWithName => Ret (Some (names, getVarWithName))
                        end
                    end
                | _ => Ret None
                end
            end
      end
  end.

(** The body of the inner [try]: [coerceValue(getVarWithName(name))]. *)
Definition read_variable (getVarWithName : jsstring -> outcome JsVal)
    (name : jsstring) : outcome JsVal :=
  match getVarWithName name with
  | Ret inkObj => coerceValue inkObj
  | Throw e => Throw e
  end.

Fixpoint snapshot_loop {St : Type} {E : Engine St}
    (getVarWithName : jsstring -> outcome JsVal)
    (names : list jsstring) (vars : SnapshotObject) : SnapshotObject :=
  match names with
  | [] => vars
  | name :: rest =>
      let vars :=
        match read_variable getVarWithName name with
        | Ret v => assign name v vars
        | Throw _ => vars      (* skip this variable *)
        end in
      snapshot_loop getVarWithName rest vars
  end.

(** The outer [try] block run on the fresh [vars]: the own properties of the
    [vars] it leaves (what [Object.keys] and reads of those keys see of the
    returned object) and how it ended. *)
Definition snapshot_try {J : JSON} {St : Type} {E : Engine St}
    (story : St) : Vars * outcome unit :=
  match snapshot_prepare story with
  | Throw e => (∅, Throw e)
  | Ret None => (∅, Ret tt)
  | Ret (Some (names, getVarWithName)) =>
      (own (snapshot_loop getVarWithName names empty_object), Ret tt)
  end.

Definition snapshotVariablesState {J : JSON} {St : Type} {E : Engine St}
    (story : St) : outcome Vars :=
  match snapshot_try story with
  | (vars, Ret _) => Ret vars
  | (vars, Throw _) => Ret vars     (* catch (e) { ignore } *)
  end.

(** The mapping a snapshot call hands back. *)
Definition snapshot_vars {J : JSON} {St : Type} {E : Engine St}
    (story : St) : Vars :=
  fst (snapshot_try story).

(** ** Calls on the story: state and exceptions *)

Definition M (St A : Type) : Type := St -> St * outcome A.

Definition ret {St A} (a : A) : M St A := fun s => (s, Ret a).

Definition throw {St A} (e : exn) : M St A := fun s => (s, Throw e).

Definition bind {St A B} (m : M St A) (k : A -> M St B) : M St B :=
  fun s =>
    match m s with
    | (s', Ret a) => k a s'
    | (s', Throw e) => (s', Throw e)
    end.

(** Reading a property of the story. *)
Definition read {St A} (f : St -> A) : M St A := fun s => (s, Ret (f s)).

(** Calling a function that cannot touch the story. *)
Definition lift {St A} (f : St -> outcome A) : M St A := fun s => (s, f s).

Notation "'do' x <~ m ;; k" := (bind m (fun x => k))
  (at level 10, x name, m at level 99, k at level 200,
   format "'[' 'do'  x  <~  m  ;;  '/' k ']'").

(** [story.state.ToJson()] as the branch selector calls it, unguarded. *)
Definition state_ToJson {St : Type} {E : Engine St} : M St (option jsstring) :=
  lift (fun story =>
    match state story with
    | None => Throw TypeError
    | Some st =>
        match ToJson st with
        | None => Throw TypeError
        | Some result => result
        end
    end).

(** ** Branch selector *)

(** A recorded start line: a line number or [Infinity]. *)
Inductive startline : Type :=
| Line (n : Z)
| Infinity.

(** [(dm && dm.startLineNumber) ? dm.startLineNumber : Infinity] *)
Definition recordStartLine (dm : option DebugMetadata) : startline :=
  match dm with
  | Some d => if startLineNumber d =? 0 then Infinity else Line (startLineNumber d)
  | None => Infinity
  end.

(** [startLine <= cursorLine] *)
Definition startline_le (l : startline) (cursorLine : Z) : bool :=
  match l with
  | Line n => n <=? cursorLine
  | Infinity => false
  end.

(** The probing loop, [todo] choices still to probe, the next being [i]. *)
Fixpoint probe_loop {St : Type} {E : Engine St}
    (savedState : option jsstring) (todo i : nat)
    (branchStartLines : list startline) : M St (list startline) :=
  match todo with
  | O => ret branchStartLines
  | S todo =>
      do _ <~ (if (0 <? i)%nat then LoadJson savedState else ret tt) ;;
      do _ <~ ChooseChoiceIndex i ;;
      do dm <~ read currentDebugMetadata ;;
      probe_loop savedState todo (S i) (branchStartLines ++ [recordStartLine dm])
  end.

(** The selection loop over the recorded lines. *)
Fixpoint pick_loop (branchStartLines : list startline) (i : nat)
    (cursorLine : Z) (bestBranch : nat) : nat :=
  match branchStartLines with
  | [] => bestBranch
  | l :: rest =>
      pick_loop rest (S i) cursorLine
        (if startline_le l cursorLine then i else bestBranch)
  end.

Definition chooseBranchIndex {St : Type} {E : Engine St}
    (cursorFilePath : option jsstring)
    (cursorLine : Z) : M St nat :=
  do choices <~ read currentChoices ;;
  match choices with
  | None | Some [] => ret 0%nat
  | Some [_] => ret 0%nat
  | Some choices =>
      do savedState <~ state_ToJson ;;
      do branchStartLines <~ probe_loop savedState (length choices) 0 [] ;;
      do _ <~ LoadJson savedState ;;
      ret (pick_loop branchStartLines 0 cursorLine 0)
  end.

(** ** Driver *)

Definition MAX_STEPS : nat := 10000.

Definition getCurrentLine {St : Type} {E : Engine St}
    (cursorFilePath : option jsstring)
    : M St (option LineInfo) :=
  do dm <~ read currentDebugMetadata ;;
  ret (getCurrentLine_of dm cursorFilePath).

(** [info && info.fileMatch && info.line >= cursorLine] *)
Definition reached (info : option LineInfo) (cursorLine : Z) : bool :=
  match info with
  | None => false
  | Some info => fileMatch info && (line info >=? cursorLine)
  end.

(** [story.currentChoices && story.currentChoices.length > 0] *)
Definition has_choices (choices : option (list Choice)) : bool :=
  match choices with
  | Some (_ :: _) => true
  | _ => false
  end.

(** The [while (steps < MAX_STEPS)] loop, by recursion on the budget
    [MAX_STEPS - steps] that is left.  It hands back the final value of
    [steps] next to the returned snapshot. *)
Fixpoint runToCursor_loop {J : JSON} {St : Type} {E : Engine St}
    (budget steps : nat)
    (lastVars : Vars) (cursorFilePath : option jsstring) (cursorLine : Z)
    : M St (nat * Vars) :=
  match budget with
  | O => ret (steps, lastVars)
  | S budget =>
      let steps := S steps in
      do continuing <~ read canContinue ;;
      if continuing then
        do prevVars <~ lift snapshotVariablesState ;;
        do _ <~ Continue ;;
        do info <~ getCurrentLine cursorFilePath ;;
        if reached info cursorLine then
          do vars <~ lift snapshotVariablesState ;;
          ret (steps, vars)
        else
          do lastVars <~ lift snapshotVariablesState ;;
          runToCursor_loop budget steps lastVars cursorFilePath cursorLine
      else
        do choices <~ read currentChoices ;;
        if has_choices choices then
          do idx <~ chooseBranchIndex cursorFilePath cursorLine ;;
          do _ <~ ChooseChoiceIndex idx ;;
          runToCursor_loop budget steps lastVars cursorFilePath cursorLine
        else
          do vars <~ lift snapshotVariablesState ;;
          ret (steps, vars)
  end.

(** [runToCursor] together with the number of iterations it made. *)
Definition runToCursor_counted {J : JSON} {St : Type} {E : Engine St}
    (cursorFilePath : option jsstring) (cursorLine : Z) : M St (nat * Vars) :=
  do lastVars <~ lift snapshotVariablesState ;;
  runToCursor_loop MAX_STEPS 0 lastVars cursorFilePath cursorLine.

Definition runToCursor {J : JSON} {St : Type} {E : Engine St}
    (cursorFilePath : option jsstring) (cursorLine : Z) : M St Vars :=
  do r <~ runToCursor_counted cursorFilePath cursorLine ;;
  ret (snd r).

(** ** Evaluation service *)

Record InkFile : Type := mkInkFile {
  relativePath : jsstring;
  getValue : jsstring
}.

(** The editor's project: its files, its main ink file when it has one, and
    the file of the project the editor's cursor is in when there is one. *)
Record Project : Type := mkProject {
  files : list InkFile;
  mainInk : option InkFile;
  activeInkFile : option InkFile
}.

(** [hierarchy[f.relativePath()] = f.getValue()] on the object [hierarchy]:
    the value is a string, so for the key [__proto__] the accessor of
    [Object.prototype] takes the assignment and does nothing. *)
Definition hierarchy_assign (hierarchy : gmap jsstring jsstring) (f : InkFile)
    : gmap jsstring jsstring :=
  if bool_decide (relativePath f = proto_key) then hierarchy
  else <[relativePath f := getValue f]> hierarchy.

Definition buildFileHierarchy (project : Project) : gmap jsstring jsstring :=
  foldl hierarchy_assign ∅ (files project).

(** The inkjs compiler: [compiler.Compile()] on the main source, its file
    name and the file hierarchy, and [compiler.errors] once it has returned. *)
Class Compiler (St : Type) : Type := {
  Compile : jsstring -> jsstring -> gmap jsstring jsstring -> outcome St;
  errors : jsstring -> jsstring -> gmap jsstring jsstring -> option (list jsstring)
}.

(** Calls the service makes, in order: the presentation collaborator's three
    operations, the compiler and the driver. *)
Inductive call : Type :=
| SceneView_clear
| SceneView_showError (message : jsstring)
| SceneView_updateScene (variables : Vars)
| Compiler_Compile (mainSource sourceFilename : jsstring)
| Driver_runToCursor (cursorFilePath : option jsstring) (cursorLine : Z).

(** [e && e.message ? e.message : String(e)] *)
Definition error_message (e : exn) : jsstring :=
  if str_truthy (exn_message e) then default [] (exn_message e)
  else exn_toString e.

(** [errors.join(sep)] *)
Fixpoint join (sep : jsstring) (l : list jsstring) : jsstring :=
  match l with
  | [] => []
  | [x] => x
  | x :: rest => x ++ sep ++ join sep rest
  end.

Definition evaluateAtLine {J : JSON} {St : Type} {E : Engine St} {C : Compiler St}
    (cursorLine : Z)
    (cursorFilePath : option jsstring) (project : option Project) : list call :=
  match project with
  | None => [SceneView_clear]
  | Some project =>
      match mainInk project with
      | None => [SceneView_clear]
      | Some main =>
          let mainSource := getValue main in
          let fileHierarchy := buildFileHierarchy project in
          Compiler_Compile mainSource (relativePath main) ::
          match Compile mainSource (relativePath main) fileHierarchy with
          | Throw e => [SceneView_showError (error_message e)]
          | Ret story =>
              match errors mainSource (relativePath main) fileHierarchy with
              | Some ((_ :: _) as errs) => [SceneView_showError (join [10%N] errs)]
              | _ =>
                  let story := set_onError story in
                  Driver_runToCursor cursorFilePath cursorLine ::
                  match runToCursor cursorFilePath cursorLine story with
                  | (_, Ret variables) => [SceneView_updateScene variables]
                  | (_, Throw e) => [SceneView_showError (error_message e)]
                  end
              end
          end
      end
  end.

Definition DEBOUNCE_MS : Z := 300.

(** A timeout waiting to fire: its delay and what its callback captured. *)
Record Timeout : Type := mkTimeout {
  delay : Z;
  captured_cursorLine : Z;
  captured_cursorFilePath : jsstring;
  captured_project : Project
}.

(** The renderer process as the service sees it: the module variable
    [debounceTimer], the host's pending timeouts and the next timer id, and
    the calls made so far. *)
Record World : Type := mkWorld {
  debounceTimer : option positive;
  pending : gmap positive Timeout;
  next_id : positive;
  calls : list call
}.

Definition clearTimeout (id : positive) (w : World) : World :=
  {| debounceTimer := debounceTimer w;
     pending := delete id (pending w);
     next_id := next_id w;
     calls := calls w |}.

Definition log (c : list call) (w : World) : World :=
  {| debounceTimer := debounceTimer w;
     pending := pending w;
     next_id := next_id w;
     calls := calls w ++ c |}.

Definition evaluateAtCursorDebounced (cursorLine : Z) (project : option Project)
    (w : World) : World :=
  let w := match debounceTimer w with
           | Some id => clearTimeout id w
           | None => w
           end in
  match project with
  | None => log [SceneView_clear] w
  | Some p =>
      match activeInkFile p with
      | None => log [SceneView_clear] w
      | Some active =>
          let cursorFilePath := relativePath active in
          let id := next_id w in
          {| debounceTimer := Some id;
             pending := <[id := {| delay := DEBOUNCE_MS;
                                   captured_cursorLine := cursorLine;
                                   captured_cursorFilePath := cursorFilePath;
                                   captured_project := p |}]> (pending w);
             next_id := Pos.succ id;
             calls := calls w |}
      end
  end.

(** The host fires the timeout [id]: its callback resets [debounceTimer] and
    evaluates. *)
Definition fire_timeout {J : JSON} {St : Type} {E : Engine St} {C : Compiler St}
    (id : positive)
    (w : World) : World :=
  match pending w !! id with
  | None => w
  | Some t =>
      {| debounceTimer := None;
         pending := delete id (pending w);
         next_id := next_id w;
         calls := calls w ++
                  evaluateAtLine (captured_cursorLine t)
                                 (Some (captured_cursorFilePath t))
                                 (Some (captured_project t)) |}
  end.

(** ** Runs of the engine *)

(** The story after [n] calls of [Continue()]. *)
Fixpoint after_steps {St : Type} {E : Engine St} (n : nat) (story : St) : St :=
  match n with
  | O => story
  | S n => after_steps n (fst (Continue story))
  end.

(** The driver's stop test on the story as it stands. *)
Definition reached_at {St : Type} {E : Engine St}
    (cursorFilePath : option jsstring) (cursorLine : Z) (story : St) : bool :=
  reached (getCurrentLine_of (currentDebugMetadata story) cursorFilePath) cursorLine.

(** The start lines the selector records at the choice point [story] when
    every probe starts from [story] again. *)
Definition probed_lines {St : Type} {E : Engine St} (n : nat) (story : St)
    : list startline :=
  List.map (fun i => recordStartLine
                       (currentDebugMetadata (fst (ChooseChoiceIndex i story))))
           (seq 0 n).

(** [budget] iterations of the driver none of which returns or throws:
    each either continues without passing the stop test, or commits to the
    branch the selector picked.  [lastVars'] is the fallback snapshot held
    after them and [story'] the story they leave. *)
Inductive keeps_going {J : JSON} {St : Type} {E : Engine St}
    (cursorFilePath : option jsstring) (cursorLine : Z)
    : nat -> Vars -> St -> Vars -> St -> Prop :=
| keeps_going_done (lastVars : Vars) (story : St) :
    keeps_going cursorFilePath cursorLine 0 lastVars story lastVars story
| keeps_going_continue (budget : nat) (lastVars lastVars' : Vars)
    (story s1 story' : St) :
    canContinue story = true ->
    Continue story = (s1, Ret tt) ->
    reached_at cursorFilePath cursorLine s1 = false ->
    keeps_going cursorFilePath cursorLine budget (snapshot_vars s1) s1
      lastVars' story' ->
    keeps_going cursorFilePath cursorLine (S budget) lastVars story
      lastVars' story'
| keeps_going_choose (budget : nat) (lastVars lastVars' : Vars)
    (story s1 s2 story' : St) (idx : nat) :
    canContinue story = false ->
    has_choices (currentChoices story) = true ->
    chooseBranchIndex cursorFilePath cursorLine story = (s1, Ret idx) ->
    ChooseChoiceIndex idx s1 = (s2, Ret tt) ->
    keeps_going cursorFilePath cursorLine budget lastVars s2 lastVars' story' ->
    keeps_going cursorFilePath cursorLine (S budget) lastVars story
      lastVars' story'.

(** ** A table-driven engine for worked examples *)

Module Toy.

(** One position of a story. *)
Record Node : Type := mkNode {
  node_dm : option DebugMetadata;
  node_vars : list (N * outcome JsVal);   (* one-letter variable names *)
  node_next : option nat;                 (* where [Continue()] leads *)
  node_choices : list nat;                (* where each choice leads *)
  node_faulty : bool                      (* arriving here throws *)
}.

Definition Script : Type := list Node.

Definition blank : Node :=
  {| node_dm := None; node_vars := []; node_next := None;
     node_choices := []; node_faulty := false |}.

Definition node_at (sc : Script) (pos : nat) : Node := nth pos sc blank.

Definition fault : exn :=
  {| exn_message := Some (js "runtime error"); exn_toString := js "Error" |}.

(** Move to [target]; the move is done even when arriving throws. *)
Definition jump (sc : Script) (target : nat) : nat * outcome unit :=
  (target, if node_faulty (node_at sc target) then Throw fault else Ret tt).

Fixpoint var_lookup (c : N) (vars : list (N * outcome JsVal)) : outcome JsVal :=
  match vars with
  | [] => Ret VNull
  | (c', v) :: rest => if (c' =? c)%N then v else var_lookup c rest
  end.

(** The serialised state: one code unit for the position, then the names
    of the variables. *)
Definition serialise (sc : Script) (pos : nat) : jsstring :=
  (N.of_nat pos + 1)%N :: List.map fst (node_vars (node_at sc pos)).

Definition engine (sc : Script) : Engine nat :=
  {| canContinue pos := bool_decide (is_Some (node_next (node_at sc pos)));
     currentChoices pos :=
       Some (List.map (fun _ => mkChoice []) (node_choices (node_at sc pos)));
     currentDebugMetadata pos := node_dm (node_at sc pos);
     state pos :=
       Some {| ToJson := Some (Ret (Some (serialise sc pos))); toJson := None |};
     variablesState pos :=
       Some {| GetVariableWithName := Some (fun name =>
                 match name with
                 | [c] => var_lookup c (node_vars (node_at sc pos))
                 | _ => Ret VNull
                 end) |};
     Continue pos :=
       match node_next (node_at sc pos) with
       | Some target => jump sc target
       | None => (pos, Throw fault)
       end;
     ChooseChoiceIndex i pos :=
       match node_choices (node_at sc pos) !! i with
       | Some target => jump sc target
       | None => (pos, Throw fault)
       end;
     LoadJson saved pos :=
       match saved with
       | Some (c :: _) => ((N.to_nat c - 1)%nat, Ret tt)
       | _ => (pos, Throw fault)
       end;
     set_onError pos := pos;
     assign_inheriting _ key value vars :=
       {| own := <[key := value]> (own vars); proto := proto vars |} |}.

(** Parsing a serialised state: its variables, as an object. *)
Definition parser : JSON :=
  {| JSON_parse s :=
       match s with
       | [] => Throw fault
       | _ :: names =>
           Ret (JObject [(js "variablesState",
                          JObject (List.map (fun c => ([c], JNull)) names))])
       end |}.

Definition compiler (sc : Script) : Compiler nat :=
  {| Compile _ _ _ := Ret 0%nat;
     errors _ _ _ := Some [] |}.

Definition at_line (n : Z) : option DebugMetadata :=
  Some {| startLineNumber := n; endLineNumber := n;
          fileName := None; sourceName := None |}.

Definition x : N := 120.
Definition bg : N := 98.

(** Two lines of text: line 1 leaves [x = 1], line 5 leaves [x = 2]. *)
Definition linear : Script :=
  [ {| node_dm := None; node_vars := [(x, Ret (VNum 0))];
       node_next := Some 1%nat; node_choices := []; node_faulty := false |};
    {| node_dm := at_line 1; node_vars := [(x, Ret (VNum 1))];
       node_next := Some 2%nat; node_choices := []; node_faulty := false |};
    {| node_dm := at_line 5; node_vars := [(x, Ret (VNum 2))];
       node_next := None; node_choices := []; node_faulty := false |} ].

(** A choice point whose branches start at lines 5 and 8. *)
Definition branching : Script :=
  [ {| node_dm := at_line 1; node_vars := [(bg, Ret (VStr (js "a")))];
       node_next := None; node_choices := [1%nat; 2%nat]; node_faulty := false |};
    {| node_dm := at_line 5; node_vars := [(bg, Ret (VStr (js "b")))];
       node_next := None; node_choices := []; node_faulty := false |};
    {| node_dm := at_line 8; node_vars := [(bg, Ret (VStr (js "c")))];
       node_next := None; node_choices := []; node_faulty := false |} ].

(** The same choice point, with a second branch that throws on entry. *)
Definition broken_branch : Script :=
  [ {| node_dm := at_line 1; node_vars := [];
       node_next := None; node_choices := [1%nat; 2%nat]; node_faulty := false |};
    {| node_dm := at_line 5; node_vars := [];
       node_next := None; node_choices := []; node_faulty := false |};
    {| node_dm := at_line 8; node_vars := [];
       node_next := None; node_choices := []; node_faulty := true |} ].

(** A story that goes round for ever. *)
Definition looping : Script :=
  [ {| node_dm := at_line 1; node_vars := [(x, Ret (VNum 0))];
       node_next := Some 0%nat; node_choices := []; node_faulty := false |} ].

(** A step that reports no debug metadata. *)
Definition silent : Script :=
  [ {| node_dm := at_line 1; node_vars := [];
       node_next := Some 1%nat; node_choices := []; node_faulty := false |};
    {| node_dm := None; node_vars := [];
       node_next := None; node_choices := []; node_faulty := false |} ].

(** Two variables, the first of which cannot be read. *)
Definition corrupt : Script :=
  [ {| node_dm := at_line 1;
       node_vars := [(x, Throw fault); (bg, Ret (VBoxed (Ret (VStr (js "a")))))];
       node_next := None; node_choices := []; node_faulty := false |} ].

(** A first step that throws: the story moves to the second position and
    the engine raises there. *)
Definition crashing : Script :=
  [ {| node_dm := at_line 1; node_vars := [(x, Ret (VNum 0))];
       node_next := Some 1%nat; node_choices := []; node_faulty := false |};
    {| node_dm := at_line 2; node_vars := [(x, Ret (VNum 1))];
       node_next := None; node_choices := []; node_faulty := true |} ].

(** A choice point with a single choice. *)
Definition single_choice : Script :=
  [ {| node_dm := at_line 1; node_vars := [];
       node_next := None; node_choices := [1%nat]; node_faulty := false |};
    {| node_dm := at_line 4; node_vars := [];
       node_next := None; node_choices := []; node_faulty := false |} ].

(** A compiler whose [Compile()] throws. *)
Definition compiler_throwing : Compiler nat :=
  {| Compile _ _ _ := Throw fault;
     errors _ _ _ := None |}.

(** A compiler that returns a story but has collected two errors. *)
Definition compiler_with_errors : Compiler nat :=
  {| Compile _ _ _ := Ret 0%nat;
     errors _ _ _ := Some [js "line 1: bad"; js "line 2: worse"] |}.

(** A serialised state that does not parse. *)
Definition parser_failing : JSON := {| JSON_parse _ := Throw fault |}.

(** A project of one file, which is its main file and the one being edited. *)
Definition main_ink : InkFile :=
  {| relativePath := js "main.ink"; getValue := js "Once upon a time" |}.

Definition project : Project :=
  {| files := [main_ink]; mainInk := Some main_ink;
     activeInkFile := Some main_ink |}.

End Toy.

(** ** A story with a variable named [__proto__] *)

Module Shadowed.

Definition quoted (s : string) : jsstring := 34%N :: js s ++ [34%N].

(** The serialised state:
    [{"variablesState":{"x":null,"__proto__":null,"y":null}}]. *)
Definition state_json : jsstring :=
  js "{" ++ quoted "variablesState" ++ js ":{" ++
  quoted "x" ++ js ":null," ++ quoted "__proto__" ++ js ":null," ++
  quoted "y" ++ js ":null}}".

(** Three variables: [x] cannot be read, every other name reads as a boxed 6. *)
Definition engine : Engine unit :=
  {| canContinue _ := false;
     currentChoices _ := Some [];
     currentDebugMetadata _ := None;
     state _ :=
       Some {| ToJson := Some (Ret (Some state_json)); toJson := None |};
     variablesState _ :=
       Some {| GetVariableWithName := Some (fun name =>
                 if bool_decide (name = js "x") then Throw Toy.fault
                 else Ret (VBoxed (Ret (VNum 6)))) |};
     Continue s := (s, Throw Toy.fault);
     ChooseChoiceIndex _ s := (s, Throw Toy.fault);
     LoadJson _ s := (s, Ret tt);
     set_onError s := s;
     assign_inheriting _ key value vars :=
       {| own := <[key := value]> (own vars); proto := proto vars |} |}.

(** [JSON.parse] on that text: an object with the three variables as own
    properties, in the order of the text. *)
Definition parser : JSON :=
  {| JSON_parse text :=
       if bool_decide (text = state_json) then
         Ret (JObject [(js "variablesState",
                        JObject [(js "x", JNull); (proto_key, JNull);
                                 (js "y", JNull)])])
       else Throw Toy.fault |}.

End Shadowed.


(** ** Presentation: [sceneView.js] *)

Module SceneView.

(** [#scene-view .scene-variables]: the [innerHTML] last assigned to it and
    whether its class list holds [hidden]. *)
Record VariablesEl : Type := mkVariablesEl {
  innerHTML : jsstring;
  variables_hidden : bool
}.

(** [#scene-view .scene-error]: its [textContent] and whether its class list
    holds [hidden]. *)
Record ErrorEl : Type := mkErrorEl {
  textContent : jsstring;
  error_hidden : bool
}.

(** The page, as far as the module queries it; [None] is an element that
    [document.querySelector] does not find. *)
Record Page : Type := mkPage {
  variablesEl : option VariablesEl;
  errorEl : option ErrorEl
}.

(** What the host provides: the serialisation of a text node
    ([div.textContent = s; div.innerHTML]), [String(val)], and the own
    properties of a snapshot object in the order [Object.keys] gives them. *)
Class Host : Type := {
  text_to_html : jsstring -> jsstring;
  String_ : JsVal -> jsstring;
  own_properties : Vars -> list (jsstring * JsVal)
}.

Definition escapeHtml {H : Host} (s : jsstring) : jsstring := text_to_html s.

Definition no_variables : jsstring := js "<p class='scene-empty'>No variables</p>".

Definition move_cursor : jsstring :=
  js "<p class='scene-empty'>Move cursor to evaluate</p>".

(** One pass of the loop over [names]: the [<li>] appended to [html]. *)
Definition list_item {H : Host} (name : jsstring) (val : JsVal) : jsstring :=
  let display :=
    match val with
    | VNull | VUndefined => js "null"
    | _ => String_ val
    end in
  js "<li><span class='scene-var-name'>" ++ escapeHtml name
  ++ js "</span>: <span class='scene-var-value'>" ++ escapeHtml display
  ++ js "</span></li>".

(** [variables] is the object passed in, as its own properties in key
    order; [None] when it is falsy or not an object. *)
Definition updateScene {H : Host} (variables : option (list (jsstring * JsVal)))
    (page : Page) : Page :=
  let errEl :=
    match errorEl page with
    | Some _ => Some {| textContent := []; error_hidden := true |}
    | None => None
    end in
  match variablesEl page with
  | None => {| variablesEl := None; errorEl := errEl |}
  | Some _ =>
      let html :=
        match variables with
        | None | Some [] => no_variables
        | Some props =>
            foldl (fun html '(name, val) => html ++ list_item name val)
                  (js "<ul class='scene-variable-list'>") props
            ++ js "</ul>"
        end in
      {| variablesEl := Some {| innerHTML := html; variables_hidden := false |};
         errorEl := errEl |}
  end.

Definition showError (message : option jsstring) (page : Page) : Page :=
  {| variablesEl :=
       match variablesEl page with
       | Some _ => Some {| innerHTML := []; variables_hidden := true |}
       | None => None
       end;
     errorEl :=
       match errorEl page with
       | Some _ =>
           Some {| textContent := if str_truthy message then default [] message
                                  else js "Unknown error";
                   error_hidden := false |}
       | None => None
       end |}.

Definition clear (page : Page) : Page :=
  {| variablesEl :=
       match variablesEl page with
       | Some _ => Some {| innerHTML := move_cursor; variables_hidden := false |}
       | None => None
       end;
     errorEl :=
       match errorEl page with
       | Some _ => Some {| textContent := []; error_hidden := true |}
       | None => None
       end |}.

(** The effect on the page of one call the service makes. *)
Definition perform {H : Host} (page : Page) (c : call) : Page :=
  match c with
  | SceneView_clear => clear page
  | SceneView_showError message => showError (Some message) page
  | SceneView_updateScene variables =>
      updateScene (Some (own_properties variables)) page
  | Compiler_Compile _ _ | Driver_runToCursor _ _ => page
  end.

End SceneView.

(** A host for worked examples: text is serialised as it is, every value
    prints as [?], properties come in the order of the map. *)
Definition plain_host : SceneView.Host :=
  {| SceneView.text_to_html s := s;
     SceneView.String_ _ := js "?";
     SceneView.own_properties v := map_to_list v |}.

(** A page with both panels, as it is before any evaluation. *)
Definition idle_page : SceneView.Page :=
  {| SceneView.variablesEl :=
       Some {| SceneView.innerHTML := SceneView.move_cursor;
               SceneView.variables_hidden := false |};
     SceneView.errorEl :=
       Some {| SceneView.textContent := []; SceneView.error_hidden := true |} |}.

(** A call on the presentation collaborator. *)
Definition is_view (c : call) : bool :=
  match c with
  | SceneView_clear | SceneView_showError _ | SceneView_updateScene _ => true
  | Compiler_Compile _ _ | Driver_runToCursor _ _ => false
  end.

(** ** Debouncing: what the module keeps true of the timers *)

(** Whatever timeout is pending is the one [debounceTimer] names. *)
Definition single_pending (w : World) : Prop :=
  forall id t, pending w !! id = Some t -> debounceTimer w = Some id.

(** ** Two readings of the specification, to be compared with the code *)

(** The specification's words for the rollback of probes: whichever way the
    selector leaves (a returned index or an exception raised while probing),
    the engine state is the one saved before probing. *)
Definition spec_probe_never_leaks : Prop :=
  forall (St : Type) (E : Engine St) (s s' : St) (choices : list Choice)
         (saved : option jsstring) (cursorFilePath : option jsstring)
         (cursorLine : Z) (r : outcome nat),
    currentChoices s = Some choices ->
    (2 <= length choices)%nat ->
    state_ToJson s = (s, Ret saved) ->
    (forall s0, LoadJson saved s0 = (s, Ret tt)) ->
    chooseBranchIndex cursorFilePath cursorLine s = (s', r) ->
    s' = s.



(** The specification's words for requests outside the project: with no
    project loaded, or with a cursor whose file is none of the project's
    files, the service clears the view and does nothing else (no error is
    shown, the driver does not run). *)
Definition spec_cleared_outside_project : Prop :=
  forall (J : JSON) (St : Type) (E : Engine St) (C : Compiler St)
         (cursorLine : Z) (cursorFilePath : option jsstring)
         (project : option Project),
    project = None \/
    (exists p path,
       project = Some p /\ cursorFilePath = Some path /\
       forall f, f ∈ files p -> relativePath f <> path) ->
    evaluateAtLine cursorLine cursorFilePath project = [SceneView_clear].

(** * Properties *)

(** ** Calls on the story *)

Lemma bind_ret {St A B : Type} (m : M St A) (k : A -> M St B) (s sa : St) (a : A) :
  m s = (sa, Ret a) -> bind m k s = k a sa.
Proof. intros Hm. unfold bind. by rewrite Hm. Qed.

Lemma bind_throw {St A B : Type} (m : M St A) (k : A -> M St B) (s sa : St)
    (e : exn) :
  m s = (sa, Throw e) -> bind m k s = (sa, Throw e).
Proof. intros Hm. unfold bind. by rewrite Hm. Qed.

Lemma bind_ret_inv {St A B : Type} (m : M St A) (k : A -> M St B) (s s' : St)
    (b : B) :
  bind m k s = (s', Ret b) ->
  exists a sa, m s = (sa, Ret a) /\ k a sa = (s', Ret b).
Proof.
  unfold bind. destruct (m s) as [sa [a|e]]; [|done].
  intros Hk. by exists a, sa.
Qed.

(** Going backwards through a [do] that returned. *)
Ltac bind_inv H :=
  let a := fresh "a" in
  let s := fresh "s" in
  apply bind_ret_inv in H as (a & s & _ & H).

(** ** Position matcher *)

Lemma match_dir_single_line (s : jsstring) :
  single_line s = true ->
  Regex.match_dir s =
    if existsb Regex.isSeparator s then Some (basename s) else None.
Proof.
  induction s as [|c t IH]; [reflexivity|].
  cbn [single_line forallb]. intros Hs.
  apply andb_true_iff in Hs as [Hc Ht]. apply negb_true_iff in Hc.
  cbn [Regex.match_dir existsb basename]. rewrite Hc, (IH Ht).
  destruct (existsb Regex.isSeparator t); [by rewrite orb_true_r|].
  rewrite orb_false_r. by destruct (Regex.isSeparator c).
Qed.

Lemma basename_no_separator (s : jsstring) :
  existsb Regex.isSeparator s = false -> basename s = s.
Proof.
  destruct s as [|c t]; [done|]. cbn [existsb basename].
  intros [Hc Ht]%orb_false_iff. by rewrite Ht, Hc.
Qed.

(** On a path without line terminators the regular expression strips
    exactly the directories. *)
Lemma replace_dir_basename (s : jsstring) :
  single_line s = true -> Regex.replace_dir s = basename s.
Proof.
  intros Hs. unfold Regex.replace_dir. rewrite (match_dir_single_line s Hs).
  destruct (existsb Regex.isSeparator s) eqn:Hsep; [done|].
  by rewrite basename_no_separator.
Qed.

Lemma jsstring_eqb_true (a b : jsstring) : jsstring_eqb a b = true <-> a = b.
Proof. unfold jsstring_eqb. by rewrite bool_decide_eq_true. Qed.

(** The file-identity check on paths without line terminators: absent file
    identity, absent cursor path, equal paths or equal final components. *)
Lemma fileMatchesCursor_single_line (dm : DebugMetadata)
    (cursorFilePath : option jsstring) :
  single_line (default [] (dm_name dm)) = true ->
  single_line (default [] cursorFilePath) = true ->
  fileMatchesCursor (Some dm) cursorFilePath = true <->
    str_truthy (dm_name dm) = false \/
    str_truthy cursorFilePath = false \/
    dm_name dm = cursorFilePath \/
    basename (default [] (dm_name dm)) = basename (default [] cursorFilePath).
Proof.
  intros Hn Hc. unfold fileMatchesCursor. cbv zeta.
  destruct (dm_name dm) as [[|a name]|]; simpl in *;
    try (split; [intros; by left | done]).
  destruct cursorFilePath as [[|b cursor]|]; simpl in *;
    try (split; [intros; right; by left | done]).
  rewrite !replace_dir_basename by done.
  destruct (jsstring_eqb (a :: name) (b :: cursor)) eqn:Heq.
  - apply jsstring_eqb_true in Heq. rewrite Heq.
    split; [intros; right; right; by left | done].
  - rewrite jsstring_eqb_true. split; [intros; right; right; by right|].
    intros [?|[?|[?|?]]]; try done.
    assert (a :: name = b :: cursor) as Hsame by congruence.
    apply jsstring_eqb_true in Hsame. congruence.
Qed.

(** C7, at a path with a line feed in a directory name: the final components
    of the two paths are equal, yet the check rejects, because [.] in the
    regular expression stops at the line feed and nothing is stripped. *)
Theorem fileMatchesCursor_line_feed_rejected :
  let name := js "x" ++ [10%N] ++ js "y/a.ink" in
  let dm := {| startLineNumber := 1; endLineNumber := 1;
               fileName := Some name; sourceName := None |} in
  basename name = basename (js "a.ink") /\
  Regex.replace_dir name = name /\
  fileMatchesCursor (Some dm) (Some (js "a.ink")) = false.
Proof. repeat split; vm_compute; reflexivity. Qed.

(** ** Variable snapshotter *)

Section Snapshotter.

Context {J : JSON} {St : Type} {E : Engine St}.

(** An assignment that does not hand an object to the [__proto__] setter
    leaves the prototype [Object.prototype] or [null], and changes no own
    property but, for a key other than [__proto__], the one it names. *)
Lemma assign_ordinary (name : jsstring) (v : JsVal) (vars : SnapshotObject) :
  (forall o, proto vars <> ValuePrototype o) ->
  (name = proto_key -> is_object v = false) ->
  (forall o, proto (assign name v vars) <> ValuePrototype o) /\
  (forall k, k <> proto_key ->
     own (assign name v vars) !! k =
       if decide (k = name) then Some v else own vars !! k).
Proof.
  intros Hproto Hv. unfold assign.
  destruct (proto vars) as [| |o] eqn:Hp; [| |by destruct (Hproto o)].
  - destruct (bool_decide (name = proto_key)) eqn:Hname; cbn [andb].
    + apply bool_decide_eq_true in Hname. specialize (Hv Hname).
      destruct (bool_decide (own vars !! name = None)).
      * assert (forall k, k <> proto_key ->
                  (if decide (k = name) then Some v else own vars !! k)
                  = own vars !! k) as Hother.
        { intros k Hk. by rewrite decide_False by congruence. }
        destruct v; try discriminate Hv; cbn [own proto];
          (split; [by rewrite ?Hp|]); intros k Hk; by rewrite Hother.
      * cbn [own proto]. split; [done|]. intros k Hk.
        rewrite decide_False by congruence.
        by rewrite lookup_insert_ne by congruence.
    + cbn [own proto]. split; [done|]. intros k Hk.
      destruct (decide (k = name)) as [->|Hne].
      * by rewrite lookup_insert_eq.
      * by rewrite lookup_insert_ne.
  - cbn [own proto]. split; [done|]. intros k Hk.
    destruct (decide (k = name)) as [->|Hne].
    + by rewrite lookup_insert_eq.
    + by rewrite lookup_insert_ne.
Qed.

(** The loop, when no variable named [__proto__] reads as an object: every
    other name it goes through ends as an own property exactly when its read
    succeeds. *)
Lemma snapshot_loop_lookup (getVarWithName : jsstring -> outcome JsVal)
    (names : list jsstring) (vars : SnapshotObject) :
  (forall o, proto vars <> ValuePrototype o) ->
  (forall v, proto_key ∈ names ->
     read_variable getVarWithName proto_key = Ret v -> is_object v = false) ->
  (forall o, proto (snapshot_loop getVarWithName names vars)
             <> ValuePrototype o) /\
  (forall name, name <> proto_key ->
     own (snapshot_loop getVarWithName names vars) !! name =
       if decide (name ∈ names) then
         match read_variable getVarWithName name with
         | Ret v => Some v
         | Throw _ => own vars !! name
         end
       else own vars !! name).
Proof.
  revert vars. induction names as [|n rest IH]; intros vars Hproto Hkey.
  - cbn. split; [done|]. intros name _.
    by rewrite decide_False by apply not_elem_of_nil.
  - cbn [snapshot_loop].
    set (vars1 := match read_variable getVarWithName n with
                  | Ret v => assign n v vars
                  | Throw _ => vars
                  end).
    assert ((forall o, proto vars1 <> ValuePrototype o) /\
            (forall k, k <> proto_key ->
               own vars1 !! k =
                 match read_variable getVarWithName n with
                 | Ret v => if decide (k = n) then Some v else own vars !! k
                 | Throw _ => own vars !! k
                 end)) as [Hproto1 Hown1].
    { unfold vars1.
      destruct (read_variable getVarWithName n) as [v|e] eqn:Hread; [|done].
      apply assign_ordinary; [done|]. intros ->.
      apply Hkey; [apply list_elem_of_here|done]. }
    destruct (IH vars1 Hproto1) as [Hfinal Hlookup].
    { intros v Hin. apply Hkey. by apply list_elem_of_further. }
    split; [done|]. intros name Hname.
    rewrite (Hlookup name Hname), (Hown1 name Hname).
    destruct (decide (name = n)) as [->|Hne].
    + rewrite (decide_True (P := n ∈ n :: rest)) by apply list_elem_of_here.
      destruct (read_variable getVarWithName n) as [v|e].
      * by destruct (decide (n ∈ rest)).
      * by destruct (decide (n ∈ rest)).
    + assert (Hiff : name ∈ n :: rest <-> name ∈ rest).
      { rewrite elem_of_cons. split; [by intros [?|?] | by right]. }
      assert (match read_variable getVarWithName n with
              | Ret v => own vars !! name
              | Throw _ => own vars !! name
              end = own vars !! name) as ->.
      { by destruct (read_variable getVarWithName n). }
      destruct (decide (name ∈ rest)) as [Hin|Hnin].
      * by rewrite decide_True by (by apply Hiff).
      * by rewrite decide_False by (by rewrite Hiff).
Qed.

(** A variable named [__proto__] whose value is not an object and not
    [null] is handed to the accessor of [Object.prototype], which drops it:
    the loop leaves no such own property. *)
Lemma snapshot_loop_proto_key (getVarWithName : jsstring -> outcome JsVal)
    (names : list jsstring) (vars : SnapshotObject) :
  proto vars = ObjectPrototype ->
  own vars !! proto_key = None ->
  (forall v, read_variable getVarWithName proto_key = Ret v ->
     is_object v = false /\ v <> VNull) ->
  own (snapshot_loop getVarWithName names vars) !! proto_key = None.
Proof.
  intros Hproto Hown Hv. revert vars Hproto Hown.
  induction names as [|n rest IH]; intros vars Hproto Hown; [done|].
  cbn [snapshot_loop]. apply IH.
  - destruct (read_variable getVarWithName n) as [v|e] eqn:Hread; [|done].
    unfold assign. rewrite Hproto.
    destruct (bool_decide (n = proto_key)) eqn:Hn; cbn [andb]; [|done].
    apply bool_decide_eq_true in Hn. subst n.
    rewrite bool_decide_eq_true_2 by done.
    destruct (Hv v Hread) as [Hobj Hnull].
    by destruct v.
  - destruct (read_variable getVarWithName n) as [v|e] eqn:Hread; [|done].
    unfold assign. rewrite Hproto.
    destruct (bool_decide (n = proto_key)) eqn:Hn; cbn [andb].
    + apply bool_decide_eq_true in Hn. subst n.
      rewrite bool_decide_eq_true_2 by done.
      destruct (Hv v Hread) as [Hobj Hnull].
      by destruct v.
    + apply bool_decide_eq_false in Hn. cbn [own].
      by rewrite lookup_insert_ne.
Qed.

Lemma snapshotVariablesState_ret (story : St) :
  snapshotVariablesState story = Ret (snapshot_vars story).
Proof.
  unfold snapshotVariablesState, snapshot_vars.
  by destruct (snapshot_try story) as [vars [[]|e]].
Qed.

End Snapshotter.

(** C6, at a story with three variables: [x], whose read throws, and
    [__proto__] and [y], both boxed numbers.  No exception escapes and [x] is
    skipped, but [__proto__], which is readable, is missing too: the
    assignment [vars["__proto__"] = 6] goes to the accessor of
    [Object.prototype] and makes no property.  Only [y] appears. *)
Theorem snapshotVariablesState_loses_proto :
  exists getVarWithName,
    snapshot_prepare (J := Shadowed.parser) (E := Shadowed.engine) tt
      = Ret (Some ([js "x"; proto_key; js "y"], getVarWithName)) /\
    read_variable getVarWithName (js "x") = Throw Toy.fault /\
    read_variable getVarWithName proto_key = Ret (VNum 6) /\
    read_variable getVarWithName (js "y") = Ret (VNum 6) /\
    snapshotVariablesState (J := Shadowed.parser) (E := Shadowed.engine) tt
      = Ret {[ js "y" := VNum 6 ]} /\
    snapshot_vars (J := Shadowed.parser) (E := Shadowed.engine) tt
      !! proto_key = None.
Proof.
  eexists. split; [reflexivity|].
  repeat split; vm_compute; reflexivity.
Qed.

(** ** Branch selector *)

Section BranchSelector.

Context {St : Type} {E : Engine St}.

(** The selection loop returns either the initial [bestBranch], when no
    recorded line is at or before the cursor, or the last index whose
    recorded line is. *)
Lemma pick_loop_cases (lines : list startline) (i0 : nat) (c : Z) (best : nat) :
  (pick_loop lines i0 c best = best /\
   forall k l, lines !! k = Some l -> startline_le l c = false) \/
  (exists k l,
     pick_loop lines i0 c best = (i0 + k)%nat /\
     lines !! k = Some l /\ startline_le l c = true /\
     forall k' l', (k < k')%nat -> lines !! k' = Some l' ->
                   startline_le l' c = false).
Proof.
  revert i0 best. induction lines as [|l rest IH]; intros i0 best.
  - left. split; [done|]. intros k l Hk. by rewrite lookup_nil in Hk.
  - cbn [pick_loop].
    destruct (IH (S i0) (if startline_le l c then i0 else best))
      as [[Heq Hall]|(k & l' & Heq & Hk & Hle & Hafter)].
    + destruct (startline_le l c) eqn:Hl.
      * right. exists 0%nat, l. rewrite Heq. repeat split; [lia|done|].
        intros [|k'] l' Hlt Hk'; [lia|]. exact (Hall k' l' Hk').
      * left. split; [done|]. intros [|k] l' Hk.
        -- by injection Hk as <-.
        -- exact (Hall k l' Hk).
    + right. exists (S k), l'. rewrite Heq. repeat split; [lia|done|done|].
      intros [|k'] l'' Hlt Hk'; [lia|].
      apply (Hafter k' l''); [lia|done].
Qed.

Lemma probe_loop_length (saved : option jsstring)
    (n i : nat) (acc lines : list startline) (s s1 : St) :
  probe_loop saved n i acc s = (s1, Ret lines) ->
  length lines = (length acc + n)%nat.
Proof.
  revert i acc s. induction n as [|n IH]; intros i acc s.
  - cbn. intros [= _ <-]. lia.
  - cbn [probe_loop]. intros Hrun.
    do 3 bind_inv Hrun.
    apply IH in Hrun. rewrite length_app in Hrun. cbn in Hrun. lia.
Qed.

(** With a serialised state that [LoadJson] restores, every probe starts
    from the choice point and the loop records [probed_lines]. *)
Lemma probe_loop_restoring
    (saved : option jsstring) (s : St) (n i : nat) (acc : list startline)
    (s0 : St) :
  (forall s', LoadJson saved s' = (s, Ret tt)) ->
  (forall k, (i <= k < i + n)%nat -> snd (ChooseChoiceIndex k s) = Ret tt) ->
  (i = 0%nat -> s0 = s) ->
  exists s1,
    probe_loop saved n i acc s0 =
      (s1, Ret (acc ++ List.map
                  (fun k => recordStartLine
                              (currentDebugMetadata (fst (ChooseChoiceIndex k s))))
                  (seq i n))).
Proof.
  intros Hrestore. revert i acc s0.
  induction n as [|n IH]; intros i acc s0 Hprobe Hfirst.
  - exists s0. cbn. by rewrite app_nil_r.
  - cbn [probe_loop].
    assert (Hstart : (if (0 <? i)%nat then LoadJson saved else ret tt) s0
                     = (s, Ret tt)).
    { destruct i as [|i]; cbn; [by rewrite Hfirst|apply Hrestore]. }
    rewrite (bind_ret _ _ _ _ _ Hstart).
    specialize (Hprobe i ltac:(lia)) as Hi.
    destruct (ChooseChoiceIndex i s) as [sb r] eqn:Hchoose.
    cbn in Hi. subst r.
    rewrite (bind_ret _ _ _ _ _ Hchoose).
    rewrite (bind_ret (read currentDebugMetadata) _ sb sb _ eq_refl).
    destruct (IH (S i) (acc ++ [recordStartLine (currentDebugMetadata sb)]) sb)
      as [s1 Hrec]; [intros; apply Hprobe; lia|lia|].
    exists s1. rewrite Hrec. cbn [seq List.map]. rewrite Hchoose.
    by rewrite <- app_assoc.
Qed.


(** A probe that throws ends the loop there: nothing is loaded back. *)
Lemma probe_loop_throws
    (saved : option jsstring) (s : St) (n i k : nat) (acc : list startline)
    (s0 s' : St) (e : exn) :
  (forall s1, LoadJson saved s1 = (s, Ret tt)) ->
  (i = 0%nat -> s0 = s) ->
  (i <= k < i + n)%nat ->
  (forall j, (i <= j < k)%nat -> snd (ChooseChoiceIndex j s) = Ret tt) ->
  ChooseChoiceIndex k s = (s', Throw e) ->
  probe_loop saved n i acc s0 = (s', Throw e).
Proof.
  intros Hrestore Hfirst Hk Hbefore Hthrow. revert i acc s0 Hfirst Hk Hbefore.
  induction n as [|n IH]; intros i acc s0 Hfirst Hk Hbefore; [lia|].
  cbn [probe_loop].
  assert (Hstart : (if (0 <? i)%nat then LoadJson saved else ret tt) s0
                   = (s, Ret tt)).
  { destruct i as [|i]; cbn; [by rewrite Hfirst|apply Hrestore]. }
  rewrite (bind_ret _ _ _ _ _ Hstart).
  destruct (decide (i = k)) as [->|Hne].
  - by rewrite (bind_throw _ _ _ _ _ Hthrow).
  - specialize (Hbefore i ltac:(lia)) as Hi.
    destruct (ChooseChoiceIndex i s) as [sb r] eqn:Hchoose.
    cbn in Hi. subst r.
    rewrite (bind_ret _ _ _ _ _ Hchoose).
    rewrite (bind_ret (read currentDebugMetadata) _ sb sb _ eq_refl).
    apply IH; [lia|lia|]. intros j Hj. apply Hbefore. lia.
Qed.

Lemma chooseBranchIndex_probing
    (cursorFilePath : option jsstring) (cursorLine : Z) (s : St)
    (choices : list Choice) :
  currentChoices s = Some choices ->
  (2 <= length choices)%nat ->
  chooseBranchIndex cursorFilePath cursorLine s =
    (do savedState <~ state_ToJson ;;
     do branchStartLines <~ probe_loop savedState (length choices) 0 [] ;;
     do _ <~ LoadJson savedState ;;
     ret (pick_loop branchStartLines 0 cursorLine 0)) s.
Proof.
  intros Hc Hlen. unfold chooseBranchIndex.
  rewrite (bind_ret (read currentChoices) _ s s _ eq_refl). rewrite Hc.
  destruct choices as [|c1 [|c2 rest]]; cbn in Hlen; [lia|lia|done].
Qed.


(** C2, the part that holds: with a serialised state that [LoadJson]
    restores, a selector that returns leaves the engine in the state it was
    called in; and it does return when the probes all return, with the index
    selected on the lines probed from that state.  When a probe throws, the
    earlier ones having returned, the selector exits by that exception and
    the engine stays where the failing probe put it. *)
Theorem chooseBranchIndex_restores_state
    (cursorFilePath : option jsstring) (cursorLine : Z) (s : St)
    (choices : list Choice) (saved : option jsstring) :
  currentChoices s = Some choices ->
  (2 <= length choices)%nat ->
  state_ToJson s = (s, Ret saved) ->
  (forall s0, LoadJson saved s0 = (s, Ret tt)) ->
  (forall s' idx,
     chooseBranchIndex cursorFilePath cursorLine s = (s', Ret idx) -> s' = s) /\
  ((forall i, (i < length choices)%nat ->
      snd (ChooseChoiceIndex i s) = Ret tt) ->
   chooseBranchIndex cursorFilePath cursorLine s =
     (s, Ret (pick_loop (probed_lines (length choices) s) 0 cursorLine 0))) /\
  (forall k s' e,
     (k < length choices)%nat ->
     (forall j, (j < k)%nat -> snd (ChooseChoiceIndex j s) = Ret tt) ->
     ChooseChoiceIndex k s = (s', Throw e) ->
     chooseBranchIndex cursorFilePath cursorLine s = (s', Throw e)).
Proof.
  intros Hc Hlen Hsave Hrestore.
  rewrite (chooseBranchIndex_probing _ _ _ _ Hc Hlen).
  rewrite (bind_ret _ _ _ _ _ Hsave).
  split; [|split].
  - intros s' idx Hrun.
    apply bind_ret_inv in Hrun as (lines & s1 & _ & Hrun).
    rewrite (bind_ret _ _ _ _ _ (Hrestore s1)) in Hrun.
    by injection Hrun as <- _.
  - intros Hprobe.
    destruct (probe_loop_restoring saved s (length choices) 0 [] s Hrestore)
      as [s1 Hrun]; [intros; apply Hprobe; lia|done|].
    rewrite (bind_ret _ _ _ _ _ Hrun).
    by rewrite (bind_ret _ _ _ _ _ (Hrestore s1)).
  - intros k s' e Hk Hbefore Hthrow.
    apply bind_throw.
    apply (probe_loop_throws saved s (length choices) 0 k [] s s' e);
      [done|done|lia| |done].
    intros j Hj. apply Hbefore. lia.
Qed.

(** C9: with a missing or empty choice list the selector returns 0 at once
    and the engine is left as it was, whatever the engine. *)
Theorem chooseBranchIndex_no_choices
    (cursorFilePath : option jsstring) (cursorLine : Z) (s : St) :
  currentChoices s = None \/ currentChoices s = Some [] ->
  chooseBranchIndex cursorFilePath cursorLine s = (s, Ret 0%nat).
Proof.
  intros Hc. unfold chooseBranchIndex.
  rewrite (bind_ret (read currentChoices) _ s s _ eq_refl).
  by destruct Hc as [-> | ->].
Qed.

End BranchSelector.

(** *** Worked examples *)


Lemma chooseBranchIndex_restores_state_witness :
  chooseBranchIndex (E := Toy.engine Toy.branching) None 9 0%nat
    = (0%nat, Ret 1%nat) /\
  chooseBranchIndex (E := Toy.engine Toy.broken_branch) None 6 0%nat
    = (2%nat, Throw Toy.fault).
Proof.
  split.
  - destruct (chooseBranchIndex_restores_state (E := Toy.engine Toy.branching)
                None 9 0%nat [mkChoice []; mkChoice []]
                (Some (Toy.serialise Toy.branching 0))
                eq_refl ltac:(cbn; lia) eq_refl (fun _ => eq_refl))
      as (_ & Hreturns & _).
    apply Hreturns.
    intros [|[|i]] Hi; [reflexivity|reflexivity|cbn in Hi; lia].
  - destruct (chooseBranchIndex_restores_state
                (E := Toy.engine Toy.broken_branch)
                None 6 0%nat [mkChoice []; mkChoice []]
                (Some (Toy.serialise Toy.broken_branch 0))
                eq_refl ltac:(cbn; lia) eq_refl (fun _ => eq_refl))
      as (_ & _ & Hthrows).
    apply (Hthrows 1%nat); [cbn; lia| |reflexivity].
    intros [|j] Hj; [reflexivity|lia].
Defined.

(** C2 as the specification words it fails: a second branch that throws on
    entry ends the selector inside that branch, not in the saved state. *)
Lemma chooseBranchIndex_throw_keeps_probe :
  ~ spec_probe_never_leaks.
Proof.
  intros Hspec.
  destruct (chooseBranchIndex (E := Toy.engine Toy.broken_branch) None 6 0%nat)
    as [s' r] eqn:Hrun.
  pose proof (Hspec nat (Toy.engine Toy.broken_branch) 0%nat s'
                [mkChoice []; mkChoice []]
                (Some (Toy.serialise Toy.broken_branch 0)) None 6 r
                eq_refl ltac:(cbn; lia) eq_refl (fun _ => eq_refl) Hrun) as Hs.
  vm_compute in Hrun. congruence.
Qed.

Lemma chooseBranchIndex_no_choices_witness :
  chooseBranchIndex (E := Toy.engine Toy.linear) None 3 0%nat
    = (0%nat, Ret 0%nat).
Proof.
  apply (chooseBranchIndex_no_choices (E := Toy.engine Toy.linear)).
  right. reflexivity.
Defined.

(** ** Driver *)

Section Driver.

Context {J : JSON} {St : Type} {E : Engine St}.

Lemma lift_snapshot (s : St) :
  lift snapshotVariablesState s = (s, Ret (snapshot_vars s)).
Proof. unfold lift. by rewrite snapshotVariablesState_ret. Qed.

Lemma getCurrentLine_eq (cursorFilePath : option jsstring) (s : St) :
  getCurrentLine cursorFilePath s =
    (s, Ret (getCurrentLine_of (currentDebugMetadata s) cursorFilePath)).
Proof. reflexivity. Qed.

(** One iteration in the Continuing state. *)
Lemma runToCursor_loop_continuing
    (budget steps : nat) (lastVars : Vars) (cursorFilePath : option jsstring)
    (cursorLine : Z) (s s1 : St) :
  canContinue s = true ->
  Continue s = (s1, Ret tt) ->
  runToCursor_loop (S budget) steps lastVars cursorFilePath cursorLine s =
    if reached_at cursorFilePath cursorLine s1
    then (s1, Ret (S steps, snapshot_vars s1))
    else runToCursor_loop budget (S steps) (snapshot_vars s1)
           cursorFilePath cursorLine s1.
Proof.
  intros Hcan Hcont. cbn [runToCursor_loop].
  rewrite (bind_ret (read canContinue) _ s s _ eq_refl), Hcan.
  rewrite (bind_ret _ _ _ _ _ (lift_snapshot s)).
  rewrite (bind_ret _ _ _ _ _ Hcont).
  rewrite (bind_ret _ _ _ _ _ (getCurrentLine_eq cursorFilePath s1)).
  unfold reached_at.
  destruct (reached _ cursorLine);
    by rewrite (bind_ret _ _ _ _ _ (lift_snapshot s1)).
Qed.


(** [j] iterations that continue without reaching the cursor. *)
Lemma runToCursor_loop_run
    (cursorFilePath : option jsstring) (cursorLine : Z) (j : nat) :
  forall (budget steps : nat) (lastVars : Vars) (s : St),
    (forall i, (i < j)%nat ->
       canContinue (after_steps i s) = true /\
       snd (Continue (after_steps i s)) = Ret tt /\
       reached_at cursorFilePath cursorLine (after_steps (S i) s) = false) ->
    runToCursor_loop (j + budget) steps lastVars cursorFilePath cursorLine s =
      runToCursor_loop budget (j + steps)
        (match j with O => lastVars | S _ => snapshot_vars (after_steps j s) end)
        cursorFilePath cursorLine (after_steps j s).
Proof.
  induction j as [|j IH]; intros budget steps lastVars s Hrun; [done|].
  destruct (Hrun 0%nat ltac:(lia)) as (Hcan & Hcont & Hnot). cbn in Hcan, Hcont, Hnot.
  destruct (Continue s) as [s1 r] eqn:Hs1. cbn in Hcont, Hnot. subst r.
  cbn [Nat.add].
  rewrite (runToCursor_loop_continuing _ _ _ _ _ _ _ Hcan Hs1), Hnot.
  rewrite IH.
  - cbn [after_steps]. rewrite Hs1. cbn [fst].
    replace (j + S steps)%nat with (S (j + steps)) by lia.
    by destruct j.
  - intros i Hi. specialize (Hrun (S i) ltac:(lia)).
    cbn [after_steps] in Hrun. by rewrite Hs1 in Hrun.
Qed.

(** C3: an iteration in the Continuing state stops exactly when the debug
    location read after the step passes the file-identity check and starts at
    or after the cursor line, and then returns the snapshot of the story
    after that step; otherwise the loop goes on from that story. *)
Theorem runToCursor_stops_when_reached
    (budget steps : nat) (lastVars : Vars) (cursorFilePath : option jsstring)
    (cursorLine : Z) (s s1 : St) :
  canContinue s = true ->
  Continue s = (s1, Ret tt) ->
  let stop :=
    match currentDebugMetadata s1 with
    | Some dm => fileMatchesCursor (Some dm) cursorFilePath
                 && (startLineNumber dm >=? cursorLine)
    | None => false
    end in
  (stop = true ->
   runToCursor_loop (S budget) steps lastVars cursorFilePath cursorLine s =
     (s1, Ret (S steps, snapshot_vars s1))) /\
  (stop = false ->
   runToCursor_loop (S budget) steps lastVars cursorFilePath cursorLine s =
     runToCursor_loop budget (S steps) (snapshot_vars s1)
       cursorFilePath cursorLine s1).
Proof.
  intros Hcan Hcont stop.
  rewrite (runToCursor_loop_continuing _ _ _ _ _ _ _ Hcan Hcont).
  assert (reached_at cursorFilePath cursorLine s1 = stop) as ->.
  { unfold reached_at, stop. by destruct (currentDebugMetadata s1). }
  split; by intros ->.
Qed.

(** C10: when the engine reports no debug metadata after a step,
    [getCurrentLine] gives [null], the stop test fails and the driver goes on
    to the next iteration, for every cursor line and file. *)
Theorem runToCursor_no_metadata_continues
    (budget steps : nat) (lastVars : Vars)
    (cursorFilePath : option jsstring) (cursorLine : Z) (s s1 : St) :
  canContinue s = true ->
  Continue s = (s1, Ret tt) ->
  currentDebugMetadata s1 = None ->
  getCurrentLine cursorFilePath s1 = (s1, Ret None) /\
  runToCursor_loop (S budget) steps lastVars cursorFilePath cursorLine s =
    runToCursor_loop budget (S steps) (snapshot_vars s1)
      cursorFilePath cursorLine s1.
Proof.
  intros Hcan Hcont Hdm. split.
  - by rewrite getCurrentLine_eq, Hdm.
  - rewrite (runToCursor_loop_continuing _ _ _ _ _ _ _ Hcan Hcont).
    unfold reached_at. by rewrite Hdm.
Qed.

Lemma runToCursor_of_loop
    (cursorFilePath : option jsstring) (cursorLine : Z) (s s' : St)
    (n : nat) (vars : Vars) :
  runToCursor_loop MAX_STEPS 0 (snapshot_vars s) cursorFilePath cursorLine s
    = (s', Ret (n, vars)) ->
  runToCursor_counted cursorFilePath cursorLine s = (s', Ret (n, vars)) /\
  runToCursor cursorFilePath cursorLine s = (s', Ret vars).
Proof.
  intros Hloop.
  assert (runToCursor_counted cursorFilePath cursorLine s = (s', Ret (n, vars)))
    as Hcounted.
  { unfold runToCursor_counted.
    by rewrite (bind_ret _ _ _ _ _ (lift_snapshot s)). }
  split; [done|]. unfold runToCursor.
  by rewrite (bind_ret _ _ _ _ _ Hcounted).
Qed.


(** The loop never counts past its budget. *)
Lemma runToCursor_loop_bound
    (cursorFilePath : option jsstring) (cursorLine : Z) (budget : nat) :
  forall (steps : nat) (lastVars : Vars) (s s' : St) (n : nat) (vars : Vars),
    runToCursor_loop budget steps lastVars cursorFilePath cursorLine s
      = (s', Ret (n, vars)) ->
    (steps <= n <= steps + budget)%nat.
Proof.
  induction budget as [|budget IH]; intros steps lastVars s s' n vars Hrun.
  - cbn in Hrun. injection Hrun as _ <- _. lia.
  - cbn [runToCursor_loop] in Hrun.
    apply bind_ret_inv in Hrun as ([] & s0 & _ & Hrun).
    + do 3 bind_inv Hrun.
      destruct (reached _ cursorLine); bind_inv Hrun.
      * injection Hrun as _ <- _. lia.
      * apply IH in Hrun. lia.
    + bind_inv Hrun.
      destruct (has_choices _).
      * do 2 bind_inv Hrun. apply IH in Hrun. lia.
      * bind_inv Hrun. injection Hrun as _ <- _. lia.
Qed.

(** One iteration in the Choosing state. *)
Lemma runToCursor_loop_choosing
    (budget steps : nat) (lastVars : Vars) (cursorFilePath : option jsstring)
    (cursorLine : Z) (s s1 s2 : St) (idx : nat) :
  canContinue s = false ->
  has_choices (currentChoices s) = true ->
  chooseBranchIndex cursorFilePath cursorLine s = (s1, Ret idx) ->
  ChooseChoiceIndex idx s1 = (s2, Ret tt) ->
  runToCursor_loop (S budget) steps lastVars cursorFilePath cursorLine s =
    runToCursor_loop budget (S steps) lastVars cursorFilePath cursorLine s2.
Proof.
  intros Hcan Hch Hsel Hcommit. cbn [runToCursor_loop].
  rewrite (bind_ret (read canContinue) _ s s _ eq_refl), Hcan.
  rewrite (bind_ret (read currentChoices) _ s s _ eq_refl), Hch.
  by rewrite (bind_ret _ _ _ _ _ Hsel), (bind_ret _ _ _ _ _ Hcommit).
Qed.

(** Iterations that all go on use up the budget one by one. *)
Lemma runToCursor_loop_keeps_going
    (cursorFilePath : option jsstring) (cursorLine : Z) (budget : nat)
    (lastVars lastVars' : Vars) (s s' : St) :
  keeps_going cursorFilePath cursorLine budget lastVars s lastVars' s' ->
  forall rest steps,
    runToCursor_loop (budget + rest) steps lastVars cursorFilePath cursorLine s =
      runToCursor_loop rest (budget + steps) lastVars'
        cursorFilePath cursorLine s'.
Proof.
  induction 1 as [lastVars s
                 |budget lastVars lastVars' s s1 s' Hcan Hcont Hnot _ IH
                 |budget lastVars lastVars' s s1 s2 s' idx Hcan Hch Hsel Hcommit _ IH];
    intros rest steps; [done| |].
  - cbn [Nat.add].
    rewrite (runToCursor_loop_continuing _ _ _ _ _ _ _ Hcan Hcont), Hnot, IH.
    by replace (budget + S steps)%nat with (S (budget + steps)) by lia.
  - cbn [Nat.add].
    rewrite (runToCursor_loop_choosing _ _ _ _ _ _ _ _ _ Hcan Hch Hsel Hcommit), IH.
    by replace (budget + S steps)%nat with (S (budget + steps)) by lia.
Qed.

(** C5: the ceiling is 10000; a call that returns has made at most that many
    iterations; a run whose iterations all go on (continuing short of the
    cursor, or choosing) ends after exactly that many with the fallback
    snapshot as an ordinary result; so on a story that can always continue
    and never passes the stop test the driver returns the snapshot captured
    after the last iteration. *)
Theorem runToCursor_step_ceiling
    (cursorFilePath : option jsstring) (cursorLine : Z) (s : St) :
  MAX_STEPS = 10000%nat /\
  (forall s' n vars,
     runToCursor_counted cursorFilePath cursorLine s = (s', Ret (n, vars)) ->
     (n <= MAX_STEPS)%nat) /\
  (forall lastVars' s',
     keeps_going cursorFilePath cursorLine MAX_STEPS (snapshot_vars s) s
       lastVars' s' ->
     runToCursor_counted cursorFilePath cursorLine s =
       (s', Ret (MAX_STEPS, lastVars')) /\
     runToCursor cursorFilePath cursorLine s = (s', Ret lastVars')) /\
  ((forall i, (i < MAX_STEPS)%nat ->
      canContinue (after_steps i s) = true /\
      snd (Continue (after_steps i s)) = Ret tt /\
      reached_at cursorFilePath cursorLine (after_steps (S i) s) = false) ->
   runToCursor_counted cursorFilePath cursorLine s =
     (after_steps MAX_STEPS s,
      Ret (MAX_STEPS, snapshot_vars (after_steps MAX_STEPS s))) /\
   runToCursor cursorFilePath cursorLine s =
     (after_steps MAX_STEPS s,
      Ret (snapshot_vars (after_steps MAX_STEPS s)))).
Proof.
  split; [reflexivity|]. split; [|split].
  - intros s' n vars Hrun. unfold runToCursor_counted in Hrun.
    rewrite (bind_ret _ _ _ _ _ (lift_snapshot s)) in Hrun.
    apply runToCursor_loop_bound in Hrun. lia.
  - intros lastVars' s' Hgo.
    pose proof (runToCursor_loop_keeps_going _ _ _ _ _ _ _ Hgo 0 0)%nat as Hrun.
    rewrite !Nat.add_0_r in Hrun. cbn [runToCursor_loop] in Hrun.
    by apply runToCursor_of_loop.
  - intros Hloops.
    pose proof (runToCursor_loop_run cursorFilePath cursorLine MAX_STEPS 0 0
                  (snapshot_vars s) s Hloops) as Hrun.
    rewrite !Nat.add_0_r in Hrun. cbn [runToCursor_loop] in Hrun.
    destruct MAX_STEPS as [|m] eqn:Hmax; [by vm_compute in Hmax|].
    rewrite <- Hmax in *. clear Hmax m.
    by apply runToCursor_of_loop.
Qed.

End Driver.

(** *** Worked examples *)

Lemma runToCursor_stops_when_reached_witness :
  runToCursor_loop (J := Toy.parser) (E := Toy.engine Toy.linear)
    2 1 (snapshot_vars (J := Toy.parser) (E := Toy.engine Toy.linear) 1%nat)
    None 3 1%nat
  = (2%nat, Ret (2%nat,
       snapshot_vars (J := Toy.parser) (E := Toy.engine Toy.linear) 2%nat)).
Proof.
  apply (runToCursor_stops_when_reached
           (J := Toy.parser) (E := Toy.engine Toy.linear)
           1 1 _ None 3 1%nat 2%nat eq_refl eq_refl).
  reflexivity.
Defined.

Lemma runToCursor_no_metadata_continues_witness :
  runToCursor_loop (J := Toy.parser) (E := Toy.engine Toy.silent)
    2 0 ∅ None 0 0%nat
  = runToCursor_loop (J := Toy.parser) (E := Toy.engine Toy.silent)
      1 1 (snapshot_vars (J := Toy.parser) (E := Toy.engine Toy.silent) 1%nat)
      None 0 1%nat.
Proof.
  apply (runToCursor_no_metadata_continues
           (J := Toy.parser) (E := Toy.engine Toy.silent)
           1 0 ∅ None 0 0%nat 1%nat eq_refl eq_refl eq_refl).
Defined.



(** A story that goes round for ever, with the cursor beyond its only line. *)
Lemma runToCursor_step_ceiling_witness :
  runToCursor (J := Toy.parser) (E := Toy.engine Toy.looping) None 7 0%nat
    = (0%nat,
       Ret (snapshot_vars (J := Toy.parser) (E := Toy.engine Toy.looping) 0%nat)).
Proof.
  assert (forall i, after_steps (E := Toy.engine Toy.looping) i 0%nat = 0%nat)
    as Hfix.
  { induction i as [|i IH]; [reflexivity|exact IH]. }
  destruct (runToCursor_step_ceiling
              (J := Toy.parser) (E := Toy.engine Toy.looping) None 7 0%nat)
    as (_ & _ & _ & Hceiling).
  destruct Hceiling as [_ Hrun].
  - intros i _. rewrite (Hfix (S i)), (Hfix i). repeat split.
  - rewrite (Hfix MAX_STEPS) in Hrun. exact Hrun.
Defined.

(** ** Evaluation service *)

Section EvaluationService.

Context {J : JSON} {St : Type} {E : Engine St} {C : Compiler St}.

(** C8, the part that holds: without a project, or with a project that has
    no main file ([evaluateAtLine]) or no active file
    ([evaluateAtCursorDebounced]), the only call made is [SceneView.clear()]:
    no error is shown, nothing is compiled or run, and the debounced entry
    schedules no evaluation.  With a main file [evaluateAtLine] never clears:
    it compiles that file, whatever the cursor's file path is. *)
Theorem evaluation_cleared_without_project (cursorLine : Z)
    (cursorFilePath : option jsstring) (project : option Project) (w : World) :
  (project = None \/ (exists p, project = Some p /\ mainInk p = None) ->
   evaluateAtLine cursorLine cursorFilePath project = [SceneView_clear]) /\
  (project = None \/ (exists p, project = Some p /\ activeInkFile p = None) ->
   let w' := evaluateAtCursorDebounced cursorLine project w in
   calls w' = calls w ++ [SceneView_clear] /\
   pending w' = match debounceTimer w with
                | Some id => delete id (pending w)
                | None => pending w
                end /\
   next_id w' = next_id w) /\
  (forall p main, project = Some p -> mainInk p = Some main ->
     exists rest,
       evaluateAtLine cursorLine cursorFilePath project =
         Compiler_Compile (getValue main) (relativePath main) :: rest /\
       SceneView_clear ∉ rest).
Proof.
  split; [|split].
  - intros [->|(p & -> & Hmain)]; [done|]. cbn. by rewrite Hmain.
  - intros Hnone w'.
    assert (w' = log [SceneView_clear]
                   (match debounceTimer w with
                    | Some id => clearTimeout id w
                    | None => w
                    end)) as ->.
    { unfold w', evaluateAtCursorDebounced.
      destruct Hnone as [->|(p & -> & Hactive)]; [done|]. by rewrite Hactive. }
    by destruct (debounceTimer w).
  - intros p main -> Hmain. unfold evaluateAtLine. rewrite Hmain.
    eexists. split; [reflexivity|].
    destruct (Compile _ _ _) as [story|e].
    + destruct (errors _ _ _) as [[|err errs]|];
        try (by rewrite not_elem_of_cons; split; [|apply not_elem_of_nil]);
        destruct (runToCursor _ _ _) as [s [variables|e]];
        rewrite !not_elem_of_cons; by repeat split; try apply not_elem_of_nil.
    + rewrite not_elem_of_cons. by split; [|apply not_elem_of_nil].
Qed.

End EvaluationService.

(** *** Worked examples *)

Lemma evaluation_cleared_without_project_witness :
  evaluateAtLine (J := Toy.parser) (E := Toy.engine Toy.linear)
    (C := Toy.compiler Toy.linear) 3 (Some (js "main.ink")) None
    = [SceneView_clear] /\
  calls (evaluateAtCursorDebounced 3
           (Some {| files := []; mainInk := None; activeInkFile := None |})
           {| debounceTimer := None; pending := ∅; next_id := 1%positive;
              calls := [] |})
    = [SceneView_clear] /\
  hd_error (evaluateAtLine (J := Toy.parser) (E := Toy.engine Toy.linear)
              (C := Toy.compiler Toy.linear) 3 (Some (js "other.ink"))
              (Some Toy.project))
    = Some (Compiler_Compile (js "Once upon a time") (js "main.ink")).
Proof.
  split; [|split].
  - destruct (evaluation_cleared_without_project
                (J := Toy.parser) (E := Toy.engine Toy.linear)
                (C := Toy.compiler Toy.linear) 3 (Some (js "main.ink")) None
                {| debounceTimer := None; pending := ∅; next_id := 1%positive;
                   calls := [] |}) as (Hline & _ & _).
    apply Hline. by left.
  - destruct (evaluation_cleared_without_project
                (J := Toy.parser) (E := Toy.engine Toy.linear)
                (C := Toy.compiler Toy.linear) 3 None
                (Some {| files := []; mainInk := None; activeInkFile := None |})
                {| debounceTimer := None; pending := ∅; next_id := 1%positive;
                   calls := [] |}) as (_ & Hdebounced & _).
    apply Hdebounced. right. by eexists.
  - destruct (evaluation_cleared_without_project
                (J := Toy.parser) (E := Toy.engine Toy.linear)
                (C := Toy.compiler Toy.linear) 3 (Some (js "other.ink"))
                (Some Toy.project)
                {| debounceTimer := None; pending := ∅; next_id := 1%positive;
                   calls := [] |}) as (_ & _ & Hmain).
    destruct (Hmain Toy.project Toy.main_ink eq_refl eq_refl)
      as (rest & -> & _).
    reflexivity.
Defined.

(** C8 as the specification words it fails: a cursor in [other.ink], which is
    no file of the project, does not stop [evaluateAtLine]: the main file is
    compiled, the driver runs and the variables are displayed. *)
Lemma evaluateAtLine_ignores_cursor_file :
  ~ spec_cleared_outside_project.
Proof.
  intros Hspec.
  assert (evaluateAtLine (J := Toy.parser) (E := Toy.engine Toy.linear)
            (C := Toy.compiler Toy.linear) 3 (Some (js "other.ink"))
            (Some Toy.project)
          = [SceneView_clear]) as Hclear.
  { apply Hspec. right. exists Toy.project, (js "other.ink").
    repeat split. intros f Hf.
    apply list_elem_of_singleton in Hf as ->. discriminate. }
  vm_compute in Hclear. discriminate Hclear.
Qed.

(** * Further properties of the module *)

(** ** Position matcher *)






(** X1: When the location has a file name and the cursor a file path, neither
    with a line terminator, the check is exactly the comparison of their final
    components: what follows the last [/] or backslash of each. *)
Theorem fileMatchesCursor_by_basename (dm : DebugMetadata)
    (name cursorFilePath : jsstring) :
  dm_name dm = Some name ->
  name <> [] ->
  cursorFilePath <> [] ->
  single_line name = true ->
  single_line cursorFilePath = true ->
  fileMatchesCursor (Some dm) (Some cursorFilePath) =
    bool_decide (basename name = basename cursorFilePath).
Proof.
  intros Hname Hn Hc Hsn Hsc.
  destruct name as [|a name]; [done|].
  destruct cursorFilePath as [|b cursorFilePath]; [done|].
  destruct (decide (basename (a :: name) = basename (b :: cursorFilePath)))
    as [Heq|Hne].
  - rewrite bool_decide_eq_true_2 by done.
    apply fileMatchesCursor_single_line; rewrite ?Hname; [done|done|].
    right. right. right. exact Heq.
  - rewrite bool_decide_eq_false_2 by done.
    destruct (fileMatchesCursor _ _) eqn:Hmatch; [|done].
    apply fileMatchesCursor_single_line in Hmatch;
      rewrite ?Hname in *; [|done|done].
    destruct Hmatch as [Hm|[Hm|[Hm|Hm]]]; try discriminate Hm.
    + injection Hm as -> ->. done.
    + done.
Qed.

Lemma fileMatchesCursor_by_basename_witness :
  fileMatchesCursor
    (Some {| startLineNumber := 1; endLineNumber := 1;
             fileName := Some (js "x/a.ink"); sourceName := None |})
    (Some (js "y\b.ink"))
  = bool_decide (basename (js "x/a.ink") = basename (js "y\b.ink")).
Proof.
  apply (fileMatchesCursor_by_basename
           {| startLineNumber := 1; endLineNumber := 1;
              fileName := Some (js "x/a.ink"); sourceName := None |}
           (js "x/a.ink") (js "y\b.ink") eq_refl);
    [discriminate|discriminate|reflexivity|reflexivity].
Defined.

Lemma match_dir_rest (s rest : jsstring) :
  Regex.match_dir s = Some rest -> Regex.match_dir rest = None.
Proof.
  revert rest. induction s as [|c t IH]; intros rest; [done|].
  cbn [Regex.match_dir].
  destruct (Regex.isLineTerminator c); [done|].
  destruct (Regex.match_dir t) as [r|] eqn:Ht.
  - intros [= <-]. by apply IH.
  - destruct (Regex.isSeparator c); [|done]. by intros [= <-].
Qed.

(** X3: Stripping the directories of a path a second time changes nothing, for
    every string: what the regular expression leaves has no [/] or backslash
    left on its first line. *)
Theorem replace_dir_idempotent (s : jsstring) :
  Regex.replace_dir (Regex.replace_dir s) = Regex.replace_dir s /\
  Regex.match_dir (Regex.replace_dir s) = None.
Proof.
  assert (Regex.match_dir (Regex.replace_dir s) = None) as Hnone.
  { unfold Regex.replace_dir.
    destruct (Regex.match_dir s) as [rest|] eqn:Hs; [|done].
    by apply match_dir_rest in Hs. }
  split; [|done].
  unfold Regex.replace_dir at 1. by rewrite Hnone.
Qed.

(** X4: The check does not care which of the two paths is the location's and
    which the cursor's. *)
Theorem fileMatchesCursor_symmetric (dm dm' : DebugMetadata)
    (cursorFilePath cursorFilePath' : option jsstring) :
  dm_name dm = cursorFilePath' ->
  dm_name dm' = cursorFilePath ->
  fileMatchesCursor (Some dm) cursorFilePath =
  fileMatchesCursor (Some dm') cursorFilePath'.
Proof.
  intros Hdm Hdm'. unfold fileMatchesCursor. cbv zeta. rewrite Hdm, Hdm'.
  destruct cursorFilePath as [[|a p]|], cursorFilePath' as [[|b q]|];
    try reflexivity.
  cbn [str_truthy negb]. unfold default. cbn [from_option id].
  unfold jsstring_eqb.
  destruct (decide (b :: q = a :: p)) as [Heq|Hne].
  - rewrite Heq. by rewrite bool_decide_eq_true_2.
  - rewrite (bool_decide_eq_false_2 (b :: q = a :: p)) by done.
    rewrite (bool_decide_eq_false_2 (a :: p = b :: q)) by congruence.
    apply bool_decide_ext. split; congruence.
Qed.

Lemma fileMatchesCursor_symmetric_witness :
  fileMatchesCursor
    (Some {| startLineNumber := 1; endLineNumber := 1;
             fileName := Some (js "src/a.ink"); sourceName := None |})
    (Some (js "a.ink")) =
  fileMatchesCursor
    (Some {| startLineNumber := 9; endLineNumber := 9;
             fileName := None; sourceName := Some (js "a.ink") |})
    (Some (js "src/a.ink")).
Proof.
  apply (fileMatchesCursor_symmetric
           {| startLineNumber := 1; endLineNumber := 1;
              fileName := Some (js "src/a.ink"); sourceName := None |}
           {| startLineNumber := 9; endLineNumber := 9;
              fileName := None; sourceName := Some (js "a.ink") |});
    reflexivity.
Defined.

(** ** Branch selector *)

Section MoreBranchSelector.

Context {St : Type} {E : Engine St}.

Lemma pick_loop_in_range (lines : list startline) (c : Z) :
  lines <> [] -> (pick_loop lines 0 c 0 < length lines)%nat.
Proof.
  intros Hne.
  destruct (pick_loop_cases lines 0 c 0)
    as [[-> _]|(k & l & -> & Hk & _)].
  - destruct lines; [done|cbn; lia].
  - by apply lookup_lt_Some in Hk.
Qed.

Lemma pick_loop_monotone (lines : list startline) (c c' : Z) :
  c <= c' -> (pick_loop lines 0 c 0 <= pick_loop lines 0 c' 0)%nat.
Proof.
  intros Hle.
  destruct (pick_loop_cases lines 0 c 0)
    as [[-> _]|(k & l & -> & Hk & Hl & _)]; [lia|].
  assert (startline_le l c' = true) as Hl'.
  { destruct l as [n|]; [|done]. cbn in *. lia. }
  destruct (pick_loop_cases lines 0 c' 0)
    as [[_ Hnone]|(k' & l' & -> & _ & _ & Hafter)].
  - rewrite (Hnone k l Hk) in Hl'. done.
  - cbn [Nat.add]. destruct (decide (k <= k')%nat) as [|Hgt]; [done|].
    rewrite (Hafter k l ltac:(lia) Hk) in Hl'. done.
Qed.

Lemma probed_lines_lookup (n k : nat) (s : St) :
  (k < n)%nat ->
  probed_lines n s !! k =
    Some (recordStartLine (currentDebugMetadata (fst (ChooseChoiceIndex k s)))).
Proof.
  intros Hk. unfold probed_lines.
  change (List.map ?f ?l) with (f <$> l).
  by rewrite list_lookup_fmap, lookup_seq_lt.
Qed.

(** The selector at a choice point whose saved state [LoadJson] restores and
    whose probes return. *)
Lemma chooseBranchIndex_picks (cursorFilePath : option jsstring)
    (cursorLine : Z) (s : St) (choices : list Choice)
    (saved : option jsstring) :
  currentChoices s = Some choices ->
  (2 <= length choices)%nat ->
  state_ToJson s = (s, Ret saved) ->
  (forall s0, LoadJson saved s0 = (s, Ret tt)) ->
  (forall i, (i < length choices)%nat ->
     snd (ChooseChoiceIndex i s) = Ret tt) ->
  chooseBranchIndex cursorFilePath cursorLine s =
    (s, Ret (pick_loop (probed_lines (length choices) s) 0 cursorLine 0)).
Proof.
  intros Hc Hlen Hsave Hrestore Hprobe.
  rewrite (chooseBranchIndex_probing _ _ _ _ Hc Hlen).
  rewrite (bind_ret _ _ _ _ _ Hsave).
  destruct (probe_loop_restoring saved s (length choices) 0 [] s Hrestore)
    as [s1 Hrun]; [intros; apply Hprobe; lia|done|].
  rewrite (bind_ret _ _ _ _ _ Hrun).
  by rewrite (bind_ret _ _ _ _ _ (Hrestore s1)).
Qed.

(** X5: Whenever the selector returns at a choice point, the index it returns is
    one of the offered choices, whatever the engine does while probed. *)
Theorem chooseBranchIndex_in_range (cursorFilePath : option jsstring)
    (cursorLine : Z) (s s' : St) (choices : list Choice) (idx : nat) :
  currentChoices s = Some choices ->
  choices <> [] ->
  chooseBranchIndex cursorFilePath cursorLine s = (s', Ret idx) ->
  (idx < length choices)%nat.
Proof.
  intros Hc Hne Hrun.
  destruct choices as [|c1 [|c2 rest]]; [done| |].
  - unfold chooseBranchIndex in Hrun.
    rewrite (bind_ret (read currentChoices) _ s s _ eq_refl), Hc in Hrun.
    injection Hrun as _ <-. cbn. lia.
  - rewrite (chooseBranchIndex_probing _ _ _ _ Hc ltac:(cbn; lia)) in Hrun.
    apply bind_ret_inv in Hrun as (saved & sa & _ & Hrun).
    apply bind_ret_inv in Hrun as (lines & sb & Hprobe & Hrun).
    apply bind_ret_inv in Hrun as (_ & sc & _ & Hrun).
    injection Hrun as _ <-.
    apply probe_loop_length in Hprobe. cbn [length Nat.add] in Hprobe |- *.
    rewrite <- Hprobe. apply pick_loop_in_range.
    intros ->. cbn in Hprobe. lia.
Qed.

(** X6: Moving the cursor down never selects an earlier branch: at the same
    choice point the selected index grows with the cursor line. *)
Theorem chooseBranchIndex_monotone (cursorFilePath : option jsstring)
    (cursorLine cursorLine' : Z) (s : St) (choices : list Choice)
    (saved : option jsstring) :
  currentChoices s = Some choices ->
  (2 <= length choices)%nat ->
  state_ToJson s = (s, Ret saved) ->
  (forall s0, LoadJson saved s0 = (s, Ret tt)) ->
  (forall i, (i < length choices)%nat ->
     snd (ChooseChoiceIndex i s) = Ret tt) ->
  cursorLine <= cursorLine' ->
  exists idx idx',
    chooseBranchIndex cursorFilePath cursorLine s = (s, Ret idx) /\
    chooseBranchIndex cursorFilePath cursorLine' s = (s, Ret idx') /\
    (idx <= idx')%nat.
Proof.
  intros Hc Hlen Hsave Hrestore Hprobe Hle.
  eexists _, _. split; [|split].
  - exact (chooseBranchIndex_picks _ _ _ _ _ Hc Hlen Hsave Hrestore Hprobe).
  - exact (chooseBranchIndex_picks _ _ _ _ _ Hc Hlen Hsave Hrestore Hprobe).
  - by apply pick_loop_monotone.
Qed.

(** X7: A branch other than the first is selected only on evidence: the engine
    reported, right after that choice was probed, metadata with a non-zero
    start line at or before the cursor line.  A branch without such metadata
    is recorded as [Infinity] and never preferred. *)
Theorem chooseBranchIndex_needs_location (cursorFilePath : option jsstring)
    (cursorLine : Z) (s : St) (choices : list Choice)
    (saved : option jsstring) :
  currentChoices s = Some choices ->
  (2 <= length choices)%nat ->
  state_ToJson s = (s, Ret saved) ->
  (forall s0, LoadJson saved s0 = (s, Ret tt)) ->
  (forall i, (i < length choices)%nat ->
     snd (ChooseChoiceIndex i s) = Ret tt) ->
  exists idx,
    chooseBranchIndex cursorFilePath cursorLine s = (s, Ret idx) /\
    ((0 < idx)%nat ->
     exists dm,
       currentDebugMetadata (fst (ChooseChoiceIndex idx s)) = Some dm /\
       startLineNumber dm <> 0 /\
       startLineNumber dm <= cursorLine).
Proof.
  intros Hc Hlen Hsave Hrestore Hprobe.
  eexists. split.
  { exact (chooseBranchIndex_picks _ _ _ _ _ Hc Hlen Hsave Hrestore Hprobe). }
  destruct (pick_loop_cases (probed_lines (length choices) s) 0 cursorLine 0)
    as [[-> _]|(k & l & -> & Hk & Hl & _)]; [lia|].
  cbn [Nat.add]. intros _.
  assert (k < length choices)%nat as Hlt.
  { apply lookup_lt_Some in Hk. unfold probed_lines in Hk.
    by rewrite length_map, length_seq in Hk. }
  rewrite (probed_lines_lookup _ _ _ Hlt) in Hk. injection Hk as <-.
  unfold recordStartLine in Hl.
  destruct (currentDebugMetadata (fst (ChooseChoiceIndex k s))) as [dm|];
    [|done].
  exists dm. split; [done|].
  destruct (startLineNumber dm =? 0) eqn:Hzero; [done|].
  cbn in Hl. lia.
Qed.

End MoreBranchSelector.

(** *** Worked examples *)

Lemma chooseBranchIndex_in_range_witness :
  chooseBranchIndex (E := Toy.engine Toy.branching) None 9 0%nat
    = (0%nat, Ret 1%nat) /\
  (1 < length [mkChoice []; mkChoice []])%nat.
Proof.
  split; [reflexivity|].
  exact (chooseBranchIndex_in_range (E := Toy.engine Toy.branching)
           None 9 0%nat 0%nat [mkChoice []; mkChoice []] 1%nat
           eq_refl ltac:(discriminate) eq_refl).
Defined.

Lemma chooseBranchIndex_monotone_witness :
  exists idx idx',
    chooseBranchIndex (E := Toy.engine Toy.branching) None 6 0%nat
      = (0%nat, Ret idx) /\
    chooseBranchIndex (E := Toy.engine Toy.branching) None 9 0%nat
      = (0%nat, Ret idx') /\
    (idx <= idx')%nat.
Proof.
  apply (chooseBranchIndex_monotone (E := Toy.engine Toy.branching)
           None 6 9 0%nat [mkChoice []; mkChoice []]
           (Some (Toy.serialise Toy.branching 0))
           eq_refl ltac:(cbn; lia) eq_refl (fun _ => eq_refl)).
  - intros [|[|i]] Hi; [reflexivity|reflexivity|cbn in Hi; lia].
  - lia.
Defined.

Lemma chooseBranchIndex_needs_location_witness :
  exists idx,
    chooseBranchIndex (E := Toy.engine Toy.branching) None 9 0%nat
      = (0%nat, Ret idx) /\
    ((0 < idx)%nat ->
     exists dm,
       currentDebugMetadata (Engine := Toy.engine Toy.branching)
         (fst (ChooseChoiceIndex (Engine := Toy.engine Toy.branching) idx 0%nat))
         = Some dm /\
       startLineNumber dm <> 0 /\ startLineNumber dm <= 9).
Proof.
  apply (chooseBranchIndex_needs_location (E := Toy.engine Toy.branching)
           None 9 0%nat [mkChoice []; mkChoice []]
           (Some (Toy.serialise Toy.branching 0))
           eq_refl ltac:(cbn; lia) eq_refl (fun _ => eq_refl)).
  intros [|[|i]] Hi; [reflexivity|reflexivity|cbn in Hi; lia].
Defined.

(** ** Driver *)

Section MoreDriver.

Context {J : JSON} {St : Type} {E : Engine St}.

(** An iteration in the Choosing state, whatever the selector does. *)
Lemma runToCursor_loop_selecting (budget steps : nat) (lastVars : Vars)
    (cursorFilePath : option jsstring) (cursorLine : Z) (s s1 : St)
    (idx : nat) :
  canContinue s = false ->
  has_choices (currentChoices s) = true ->
  chooseBranchIndex cursorFilePath cursorLine s = (s1, Ret idx) ->
  runToCursor_loop (S budget) steps lastVars cursorFilePath cursorLine s =
    (do _ <~ ChooseChoiceIndex idx ;;
     runToCursor_loop budget (S steps) lastVars cursorFilePath cursorLine) s1.
Proof.
  intros Hcan Hch Hsel. cbn [runToCursor_loop].
  rewrite (bind_ret (read canContinue) _ s s _ eq_refl), Hcan.
  rewrite (bind_ret (read currentChoices) _ s s _ eq_refl), Hch.
  by rewrite (bind_ret _ _ _ _ _ Hsel).
Qed.

(** X8: At a choice point with exactly one choice the driver does not probe:
    the selector answers 0 with the engine untouched, and the iteration is
    the commit to that choice followed by the rest of the loop. *)
Theorem runToCursor_single_choice (budget steps : nat) (lastVars : Vars)
    (cursorFilePath : option jsstring) (cursorLine : Z) (s : St)
    (choice : Choice) :
  canContinue s = false ->
  currentChoices s = Some [choice] ->
  chooseBranchIndex cursorFilePath cursorLine s = (s, Ret 0%nat) /\
  runToCursor_loop (S budget) steps lastVars cursorFilePath cursorLine s =
    (do _ <~ ChooseChoiceIndex 0 ;;
     runToCursor_loop budget (S steps) lastVars cursorFilePath cursorLine) s.
Proof.
  intros Hcan Hc.
  assert (chooseBranchIndex cursorFilePath cursorLine s = (s, Ret 0%nat))
    as Hsel.
  { unfold chooseBranchIndex.
    by rewrite (bind_ret (read currentChoices) _ s s _ eq_refl), Hc. }
  split; [done|].
  apply (runToCursor_loop_selecting _ _ _ _ _ _ _ _ Hcan); [|done].
  by rewrite Hc.
Qed.

(** X9: At a choice point with several choices, a restorable saved state and
    probes that return, the iteration is the commit to the selected choice
    made from the choice point itself, not from a probed branch, followed by
    the rest of the loop. *)
Theorem runToCursor_commits_from_choice_point (budget steps : nat)
    (lastVars : Vars) (cursorFilePath : option jsstring) (cursorLine : Z)
    (s : St) (choices : list Choice) (saved : option jsstring) :
  canContinue s = false ->
  currentChoices s = Some choices ->
  (2 <= length choices)%nat ->
  state_ToJson s = (s, Ret saved) ->
  (forall s0, LoadJson saved s0 = (s, Ret tt)) ->
  (forall i, (i < length choices)%nat ->
     snd (ChooseChoiceIndex i s) = Ret tt) ->
  runToCursor_loop (S budget) steps lastVars cursorFilePath cursorLine s =
    (do _ <~ ChooseChoiceIndex
               (pick_loop (probed_lines (length choices) s) 0 cursorLine 0) ;;
     runToCursor_loop budget (S steps) lastVars cursorFilePath cursorLine) s.
Proof.
  intros Hcan Hc Hlen Hsave Hrestore Hprobe.
  apply (runToCursor_loop_selecting _ _ _ _ _ _ _ _ Hcan).
  - rewrite Hc. destruct choices; [cbn in Hlen; lia|done].
  - exact (chooseBranchIndex_picks _ _ _ _ _ Hc Hlen Hsave Hrestore Hprobe).
Qed.

Lemma runToCursor_of_loop_throw (cursorFilePath : option jsstring)
    (cursorLine : Z) (s s' : St) (e : exn) :
  runToCursor_loop MAX_STEPS 0 (snapshot_vars s) cursorFilePath cursorLine s
    = (s', Throw e) ->
  runToCursor cursorFilePath cursorLine s = (s', Throw e).
Proof.
  intros Hloop. unfold runToCursor. apply bind_throw.
  unfold runToCursor_counted.
  by rewrite (bind_ret _ _ _ _ _ (lift_snapshot s)).
Qed.

(** An exception thrown by [Continue()] is not caught by the driver. *)
Lemma runToCursor_throws (cursorFilePath : option jsstring)
    (cursorLine : Z) (s s' : St) (j : nat) (e : exn) :
  (j < MAX_STEPS)%nat ->
  (forall i, (i < j)%nat ->
     canContinue (after_steps i s) = true /\
     snd (Continue (after_steps i s)) = Ret tt /\
     reached_at cursorFilePath cursorLine (after_steps (S i) s) = false) ->
  canContinue (after_steps j s) = true ->
  Continue (after_steps j s) = (s', Throw e) ->
  runToCursor cursorFilePath cursorLine s = (s', Throw e).
Proof.
  intros Hj Hrun Hcan Hthrow.
  assert (exists budget, MAX_STEPS = (j + S budget)%nat) as [budget Hbudget].
  { exists (MAX_STEPS - S j)%nat. lia. }
  apply runToCursor_of_loop_throw.
  rewrite Hbudget, (runToCursor_loop_run cursorFilePath cursorLine j _ _ _ _ Hrun).
  cbn [runToCursor_loop].
  rewrite (bind_ret (read canContinue) _ _ _ _ eq_refl), Hcan.
  rewrite (bind_ret _ _ _ _ _ (lift_snapshot (after_steps j s))).
  by apply bind_throw.
Qed.

Lemma runToCursor_loop_fresh (cursorFilePath : option jsstring)
    (cursorLine : Z) (budget : nat) :
  forall (steps : nat) (lastVars : Vars) (s s' : St) (n : nat) (vars : Vars),
    runToCursor_loop budget steps lastVars cursorFilePath cursorLine s
      = (s', Ret (n, vars)) ->
    (n < steps + budget)%nat ->
    vars = snapshot_vars s'.
Proof.
  induction budget as [|budget IH]; intros steps lastVars s s' n vars Hrun Hn.
  - cbn in Hrun. injection Hrun as _ <- _. lia.
  - cbn [runToCursor_loop] in Hrun.
    apply bind_ret_inv in Hrun as ([] & s0 & _ & Hrun).
    + do 3 bind_inv Hrun.
      destruct (reached _ cursorLine);
        apply bind_ret_inv in Hrun as (v & sd & Hsnap & Hrun);
        rewrite lift_snapshot in Hsnap; injection Hsnap as <- <-.
      * by injection Hrun as <- _ <-.
      * apply IH in Hrun; [done|lia].
    + bind_inv Hrun.
      destruct (has_choices _).
      * do 2 bind_inv Hrun. apply IH in Hrun; [done|lia].
      * apply bind_ret_inv in Hrun as (v & sd & Hsnap & Hrun).
        rewrite lift_snapshot in Hsnap. injection Hsnap as <- <-.
        by injection Hrun as <- _ <-.
Qed.

(** X10: A result returned before the step ceiling is never the fallback: it is
    the snapshot of the story as the driver leaves it. *)
Theorem runToCursor_early_result_is_current (cursorFilePath : option jsstring)
    (cursorLine : Z) (s s' : St) (n : nat) (vars : Vars) :
  runToCursor_counted cursorFilePath cursorLine s = (s', Ret (n, vars)) ->
  (n < MAX_STEPS)%nat ->
  vars = snapshot_vars s'.
Proof.
  intros Hrun Hn. unfold runToCursor_counted in Hrun.
  rewrite (bind_ret _ _ _ _ _ (lift_snapshot s)) in Hrun.
  by apply runToCursor_loop_fresh in Hrun.
Qed.

End MoreDriver.

(** *** Worked examples *)

Lemma runToCursor_single_choice_witness :
  runToCursor_loop (J := Toy.parser) (E := Toy.engine Toy.single_choice)
    2 0 ∅ None 9 0%nat
  = runToCursor_loop (J := Toy.parser) (E := Toy.engine Toy.single_choice)
      1 1 ∅ None 9 1%nat.
Proof.
  destruct (runToCursor_single_choice
              (J := Toy.parser) (E := Toy.engine Toy.single_choice)
              1 0 ∅ None 9 0%nat (mkChoice []) eq_refl eq_refl)
    as [_ Hiter].
  rewrite Hiter. reflexivity.
Defined.

Lemma runToCursor_commits_from_choice_point_witness :
  runToCursor_loop (J := Toy.parser) (E := Toy.engine Toy.branching)
    2 0 ∅ None 9 0%nat
  = runToCursor_loop (J := Toy.parser) (E := Toy.engine Toy.branching)
      1 1 ∅ None 9 2%nat.
Proof.
  rewrite (runToCursor_commits_from_choice_point
             (J := Toy.parser) (E := Toy.engine Toy.branching)
             1 0 ∅ None 9 0%nat [mkChoice []; mkChoice []]
             (Some (Toy.serialise Toy.branching 0))
             eq_refl eq_refl ltac:(cbn; lia) eq_refl (fun _ => eq_refl)).
  - reflexivity.
  - intros [|[|i]] Hi; [reflexivity|reflexivity|cbn in Hi; lia].
Defined.

Lemma runToCursor_early_result_is_current_witness :
  exists vars,
    runToCursor_counted (J := Toy.parser) (E := Toy.engine Toy.linear)
      None 3 0%nat = (2%nat, Ret (2%nat, vars)) /\
    vars = snapshot_vars (J := Toy.parser) (E := Toy.engine Toy.linear) 2%nat.
Proof.
  eexists. split; [vm_compute; reflexivity|].
  apply (runToCursor_early_result_is_current
           (J := Toy.parser) (E := Toy.engine Toy.linear)
           None 3 0%nat 2%nat 2%nat).
  - vm_compute. reflexivity.
  - vm_compute. lia.
Defined.

(** ** Evaluation service *)

Lemma foldl_hierarchy_assign_lookup (l : list InkFile)
    (m : gmap jsstring jsstring) (path : jsstring) :
  foldl hierarchy_assign m l !! path =
    if decide (path = proto_key) then m !! path
    else match last (filter (fun f => relativePath f = path) l) with
         | Some f => Some (getValue f)
         | None => m !! path
         end.
Proof.
  revert m. induction l as [|x l IH]; intros m.
  { rewrite filter_nil. simpl. by destruct (decide (path = proto_key)). }
  cbn [foldl]. rewrite IH. unfold hierarchy_assign.
  destruct (decide (path = proto_key)) as [->|Hpath].
  - destruct (bool_decide (relativePath x = proto_key)) eqn:Hx; [done|].
    apply bool_decide_eq_false in Hx. by rewrite lookup_insert_ne.
  - destruct (decide (relativePath x = path)) as [Hx|Hx].
    + rewrite filter_cons_True by done. rewrite last_cons.
      destruct (last (filter _ l)); [done|].
      rewrite bool_decide_eq_false_2 by congruence.
      rewrite Hx. apply lookup_insert_eq.
    + rewrite filter_cons_False by done.
      destruct (last (filter _ l)); [done|].
      destruct (bool_decide (relativePath x = proto_key)); [done|].
      by rewrite lookup_insert_ne.
Qed.

(** X11: The file hierarchy handed to the compiler maps a path other than
    [__proto__] to the content of the last project file that has it as
    relative path, and has no entry for a path that no project file has; a
    file whose relative path is [__proto__] gets no entry at all. *)
Theorem buildFileHierarchy_lookup (project : Project) (path : jsstring) :
  buildFileHierarchy project !! path =
    if decide (path = proto_key) then None
    else getValue <$>
           last (filter (fun f => relativePath f = path) (files project)).
Proof.
  unfold buildFileHierarchy. rewrite foldl_hierarchy_assign_lookup.
  destruct (decide (path = proto_key)); [done|].
  by destruct (last _).
Qed.

Section MoreEvaluationService.

Context {J : JSON} {St : Type} {E : Engine St} {C : Compiler St}.

(** X12: Every evaluation ends with exactly one call on the presentation
    collaborator, made last; the driver runs at most once and only on a
    story the compiler was asked for; variables are shown only after the
    driver ran. *)
Theorem evaluateAtLine_calls (cursorLine : Z)
    (cursorFilePath : option jsstring) (project : option Project) :
  evaluateAtLine cursorLine cursorFilePath project = [SceneView_clear] \/
  (exists mainSource sourceFilename message,
     evaluateAtLine cursorLine cursorFilePath project =
       [Compiler_Compile mainSource sourceFilename;
        SceneView_showError message]) \/
  (exists mainSource sourceFilename view,
     evaluateAtLine cursorLine cursorFilePath project =
       [Compiler_Compile mainSource sourceFilename;
        Driver_runToCursor cursorFilePath cursorLine;
        view] /\
     ((exists message, view = SceneView_showError message) \/
      (exists variables, view = SceneView_updateScene variables))).
Proof.
  unfold evaluateAtLine.
  destruct project as [p|]; [|by left].
  destruct (mainInk p) as [main|]; [|by left].
  right.
  destruct (Compile _ _ _) as [story|e]; [|left; by eexists _, _, _].
  destruct (errors _ _ _) as [[|err errs]|];
    [|left; by eexists _, _, _|];
    right; destruct (runToCursor _ _ _) as [s' [vars|e]];
    eexists _, _, _; (split; [reflexivity|]);
    [right|left|right|left]; by eexists.
Qed.

(** X13: A compile failure is shown and nothing is run: an exception from
    [Compile()] is shown by its message, and collected compiler errors are
    shown joined by line feeds even though a story was returned. *)
Theorem evaluateAtLine_compile_failure (cursorLine : Z)
    (cursorFilePath : option jsstring) (project : Project) (main : InkFile) :
  mainInk project = Some main ->
  let compiled :=
    Compile (getValue main) (relativePath main) (buildFileHierarchy project) in
  let collected :=
    errors (getValue main) (relativePath main) (buildFileHierarchy project) in
  (forall e, compiled = Throw e ->
     evaluateAtLine cursorLine cursorFilePath (Some project) =
       [Compiler_Compile (getValue main) (relativePath main);
        SceneView_showError (error_message e)]) /\
  (forall story errs, compiled = Ret story -> collected = Some errs ->
     errs <> [] ->
     evaluateAtLine cursorLine cursorFilePath (Some project) =
       [Compiler_Compile (getValue main) (relativePath main);
        SceneView_showError (join [10%N] errs)]).
Proof.
  intros Hmain compiled collected. unfold evaluateAtLine. rewrite Hmain.
  fold compiled collected. split.
  - by intros e ->.
  - intros story errs -> -> Hne. by destruct errs as [|err errs].
Qed.

(** X14: A story that compiles cleanly and then throws in a [Continue()], after
    any number of steps that went on: the exception leaves the driver as
    thrown and the service shows its message; no scene is displayed.  The
    story that is run is the compiled one with the silent error handler
    installed. *)
Theorem evaluateAtLine_runtime_exception (cursorLine : Z)
    (cursorFilePath : option jsstring) (project : Project) (main : InkFile)
    (story s' : St) (j : nat) (e : exn) :
  mainInk project = Some main ->
  Compile (getValue main) (relativePath main) (buildFileHierarchy project)
    = Ret story ->
  errors (getValue main) (relativePath main) (buildFileHierarchy project)
    = Some [] ->
  (j < MAX_STEPS)%nat ->
  (forall i, (i < j)%nat ->
     canContinue (after_steps i (set_onError story)) = true /\
     snd (Continue (after_steps i (set_onError story))) = Ret tt /\
     reached_at cursorFilePath cursorLine
       (after_steps (S i) (set_onError story)) = false) ->
  canContinue (after_steps j (set_onError story)) = true ->
  Continue (after_steps j (set_onError story)) = (s', Throw e) ->
  runToCursor cursorFilePath cursorLine (set_onError story) = (s', Throw e) /\
  evaluateAtLine cursorLine cursorFilePath (Some project) =
    [Compiler_Compile (getValue main) (relativePath main);
     Driver_runToCursor cursorFilePath cursorLine;
     SceneView_showError (error_message e)].
Proof.
  intros Hmain Hcompile Herrors Hj Hrun Hcan Hthrow.
  pose proof (runToCursor_throws _ _ _ _ _ _ Hj Hrun Hcan Hthrow) as Hdriver.
  split; [done|].
  unfold evaluateAtLine. by rewrite Hmain, Hcompile, Herrors, Hdriver.
Qed.

Lemma runToCursor_stops_after (cursorFilePath : option jsstring)
    (cursorLine : Z) (s : St) (j : nat) :
  (j < MAX_STEPS)%nat ->
  (forall i, (i < j)%nat ->
     canContinue (after_steps i s) = true /\
     snd (Continue (after_steps i s)) = Ret tt /\
     reached_at cursorFilePath cursorLine (after_steps (S i) s) = false) ->
  canContinue (after_steps j s) = true ->
  snd (Continue (after_steps j s)) = Ret tt ->
  reached_at cursorFilePath cursorLine (after_steps (S j) s) = true ->
  runToCursor cursorFilePath cursorLine s =
    (after_steps (S j) s, Ret (snapshot_vars (after_steps (S j) s))).
Proof.
  intros Hj Hrun Hcan Hcont Hreached.
  assert (exists budget, MAX_STEPS = (j + S budget)%nat) as [budget Hbudget].
  { exists (MAX_STEPS - S j)%nat. lia. }
  assert (after_steps (S j) s = fst (Continue (after_steps j s))) as Hlast.
  { clear. revert s. induction j as [|j IH]; intros s; [done|].
    cbn [after_steps] in *. apply IH. }
  pose proof (runToCursor_loop_run cursorFilePath cursorLine j (S budget) 0
                (snapshot_vars s) s Hrun) as Hloop.
  rewrite <- Hbudget in Hloop.
  destruct (Continue (after_steps j s)) as [s1 r] eqn:Hs1.
  cbn [fst snd] in Hcont, Hlast. subst r. rewrite Hlast in Hreached |- *.
  rewrite (runToCursor_loop_continuing _ _ _ _ _ _ _ Hcan Hs1), Hreached
    in Hloop.
  by apply runToCursor_of_loop in Hloop as [_ ?].
Qed.

(** X15: End to end on a story that compiles cleanly and runs straight to the
    cursor: the one view call is [updateScene] with the snapshot of the
    compiled story (silent error handler installed) right after the first
    step that passes the stop test. *)
Theorem evaluateAtLine_displays_snapshot (cursorLine : Z)
    (cursorFilePath : option jsstring) (project : Project) (main : InkFile)
    (story : St) (j : nat) :
  mainInk project = Some main ->
  Compile (getValue main) (relativePath main) (buildFileHierarchy project)
    = Ret story ->
  errors (getValue main) (relativePath main) (buildFileHierarchy project)
    = Some [] ->
  (j < MAX_STEPS)%nat ->
  (forall i, (i < j)%nat ->
     canContinue (after_steps i (set_onError story)) = true /\
     snd (Continue (after_steps i (set_onError story))) = Ret tt /\
     reached_at cursorFilePath cursorLine
       (after_steps (S i) (set_onError story)) = false) ->
  canContinue (after_steps j (set_onError story)) = true ->
  snd (Continue (after_steps j (set_onError story))) = Ret tt ->
  reached_at cursorFilePath cursorLine
    (after_steps (S j) (set_onError story)) = true ->
  evaluateAtLine cursorLine cursorFilePath (Some project) =
    [Compiler_Compile (getValue main) (relativePath main);
     Driver_runToCursor cursorFilePath cursorLine;
     SceneView_updateScene
       (snapshot_vars (after_steps (S j) (set_onError story)))].
Proof.
  intros Hmain Hcompile Herrors Hj Hrun Hcan Hcont Hreached.
  pose proof (runToCursor_stops_after _ _ _ _ Hj Hrun Hcan Hcont Hreached)
    as Hdriver.
  unfold evaluateAtLine. by rewrite Hmain, Hcompile, Herrors, Hdriver.
Qed.

End MoreEvaluationService.

(** *** Worked examples *)

Lemma evaluateAtLine_compile_failure_witness :
  evaluateAtLine (J := Toy.parser) (E := Toy.engine Toy.linear)
    (C := Toy.compiler_throwing) 3 None (Some Toy.project)
    = [Compiler_Compile (js "Once upon a time") (js "main.ink");
       SceneView_showError (js "runtime error")] /\
  evaluateAtLine (J := Toy.parser) (E := Toy.engine Toy.linear)
    (C := Toy.compiler_with_errors) 3 None (Some Toy.project)
    = [Compiler_Compile (js "Once upon a time") (js "main.ink");
       SceneView_showError (js "line 1: bad" ++ [10%N] ++ js "line 2: worse")].
Proof.
  split.
  - destruct (evaluateAtLine_compile_failure
                (J := Toy.parser) (E := Toy.engine Toy.linear)
                (C := Toy.compiler_throwing) 3 None Toy.project Toy.main_ink
                eq_refl) as [Hthrown _].
    exact (Hthrown Toy.fault eq_refl).
  - destruct (evaluateAtLine_compile_failure
                (J := Toy.parser) (E := Toy.engine Toy.linear)
                (C := Toy.compiler_with_errors) 3 None Toy.project Toy.main_ink
                eq_refl) as [_ Hcollected].
    exact (Hcollected 0%nat _ eq_refl eq_refl ltac:(discriminate)).
Defined.

Lemma evaluateAtLine_runtime_exception_witness :
  evaluateAtLine (J := Toy.parser) (E := Toy.engine Toy.crashing)
    (C := Toy.compiler Toy.crashing) 5 None (Some Toy.project)
    = [Compiler_Compile (js "Once upon a time") (js "main.ink");
       Driver_runToCursor None 5;
       SceneView_showError (js "runtime error")].
Proof.
  apply (evaluateAtLine_runtime_exception
           (J := Toy.parser) (E := Toy.engine Toy.crashing)
           (C := Toy.compiler Toy.crashing)
           5 None Toy.project Toy.main_ink 0%nat 1%nat 0%nat Toy.fault
           eq_refl eq_refl eq_refl).
  - vm_compute. lia.
  - intros i Hi. lia.
  - reflexivity.
  - reflexivity.
Defined.

Lemma evaluateAtLine_displays_snapshot_witness :
  evaluateAtLine (J := Toy.parser) (E := Toy.engine Toy.linear)
    (C := Toy.compiler Toy.linear) 3 (Some (js "main.ink")) (Some Toy.project)
    = [Compiler_Compile (js "Once upon a time") (js "main.ink");
       Driver_runToCursor (Some (js "main.ink")) 3;
       SceneView_updateScene
         (snapshot_vars (J := Toy.parser) (E := Toy.engine Toy.linear) 2%nat)].
Proof.
  apply (evaluateAtLine_displays_snapshot
           (J := Toy.parser) (E := Toy.engine Toy.linear)
           (C := Toy.compiler Toy.linear)
           3 (Some (js "main.ink")) Toy.project Toy.main_ink 0%nat 1%nat
           eq_refl eq_refl eq_refl).
  - vm_compute. lia.
  - intros [|i] Hi; [|lia]. repeat split.
  - reflexivity.
  - reflexivity.
  - reflexivity.
Defined.

(** ** Debouncing *)

Section Debouncing.

Context {J : JSON} {St : Type} {E : Engine St} {C : Compiler St}.

Lemma single_pending_cleared (w : World) :
  single_pending w ->
  pending (match debounceTimer w with
           | Some id => clearTimeout id w
           | None => w
           end) = ∅.
Proof.
  intros Hw. apply map_eq. intros id. rewrite lookup_empty.
  destruct (debounceTimer w) as [timer|] eqn:Htimer; cbn [pending clearTimeout].
  - destruct (decide (id = timer)) as [->|Hne].
    + apply lookup_delete_eq.
    + rewrite lookup_delete_ne by done.
      destruct (pending w !! id) as [t|] eqn:Hid; [|done].
      specialize (Hw id t Hid). congruence.
  - destruct (pending w !! id) as [t|] eqn:Hid; [|done].
    specialize (Hw id t Hid). congruence.
Qed.

(** X16: The module keeps at most one evaluation waiting: if every pending
    timeout is the one [debounceTimer] names, that is still so after a
    request and after the host fires a timeout. *)
Theorem debounce_single_pending (w : World) (cursorLine : Z)
    (project : option Project) (id : positive) :
  single_pending w ->
  single_pending (evaluateAtCursorDebounced cursorLine project w) /\
  single_pending (fire_timeout id w).
Proof.
  intros Hw. split.
  - pose proof (single_pending_cleared w Hw) as Hclear.
    unfold evaluateAtCursorDebounced.
    set (w0 := match debounceTimer w with
               | Some id => clearTimeout id w
               | None => w
               end) in *.
    destruct project as [p|]; [destruct (activeInkFile p) as [active|]|].
    + intros k t. cbn [pending debounceTimer]. rewrite Hclear.
      destruct (decide (k = next_id w0)) as [->|Hne]; [done|].
      by rewrite lookup_insert_ne, lookup_empty.
    + intros k t. cbn [pending log]. by rewrite Hclear, lookup_empty.
    + intros k t. cbn [pending log]. by rewrite Hclear, lookup_empty.
  - unfold fire_timeout.
    destruct (pending w !! id) as [t|] eqn:Hid; [|done].
    intros k t'. cbn [pending debounceTimer].
    destruct (decide (k = id)) as [->|Hne].
    + by rewrite lookup_delete_eq.
    + rewrite lookup_delete_ne by done. intros Hk.
      pose proof (Hw k t' Hk). pose proof (Hw id t Hid). congruence.
Qed.

(** X17: Only the latest request is evaluated: after a request with an active
    file, the one pending timeout is that request's, with the module's delay,
    its cursor line and the active file's path; firing it evaluates exactly
    there, and firing any other timer id does nothing. *)
Theorem debounce_latest_wins (w : World) (cursorLine : Z) (p : Project)
    (active : InkFile) :
  single_pending w ->
  activeInkFile p = Some active ->
  let w' := evaluateAtCursorDebounced cursorLine (Some p) w in
  let id := next_id w in
  pending w' = {[ id := {| delay := 300;
                           captured_cursorLine := cursorLine;
                           captured_cursorFilePath := relativePath active;
                           captured_project := p |} ]} /\
  debounceTimer w' = Some id /\
  calls w' = calls w /\
  calls (fire_timeout id w') =
    calls w ++ evaluateAtLine cursorLine (Some (relativePath active)) (Some p) /\
  pending (fire_timeout id w') = ∅ /\
  (forall other, other <> id -> fire_timeout other w' = w').
Proof.
  intros Hw Hactive w' id.
  pose proof (single_pending_cleared w Hw) as Hclear.
  assert (Hnext : next_id (match debounceTimer w with
                           | Some id => clearTimeout id w
                           | None => w
                           end) = next_id w) by (by destruct (debounceTimer w)).
  assert (Hcalls : calls (match debounceTimer w with
                          | Some id => clearTimeout id w
                          | None => w
                          end) = calls w) by (by destruct (debounceTimer w)).
  assert (Hpending : pending w' =
            {[ id := {| delay := 300;
                        captured_cursorLine := cursorLine;
                        captured_cursorFilePath := relativePath active;
                        captured_project := p |} ]}).
  { unfold w', evaluateAtCursorDebounced. rewrite Hactive.
    cbn [pending]. by rewrite Hclear, Hnext. }
  assert (Hcalls' : calls w' = calls w).
  { unfold w', evaluateAtCursorDebounced. rewrite Hactive. by cbn [calls]. }
  split; [done|]. split.
  { unfold w', evaluateAtCursorDebounced. rewrite Hactive.
    cbn [debounceTimer]. by rewrite Hnext. }
  split; [done|].
  unfold fire_timeout. rewrite Hpending. split; [|split].
  - rewrite lookup_singleton_eq. cbn [calls captured_cursorLine
      captured_cursorFilePath captured_project]. by rewrite Hcalls'.
  - rewrite lookup_singleton_eq. cbn [pending].
    apply delete_singleton_eq.
  - intros other Hother. by rewrite lookup_singleton_ne.
Qed.

(** X18: A request made without a project or without an active file cancels the
    evaluation that was waiting: nothing is pending afterwards, and whatever
    timer id the host fires, nothing happens. *)
Theorem debounce_idle_request_cancels (w : World) (cursorLine : Z)
    (project : option Project) (id : positive) :
  single_pending w ->
  project = None \/ (exists p, project = Some p /\ activeInkFile p = None) ->
  let w' := evaluateAtCursorDebounced cursorLine project w in
  pending w' = ∅ /\ fire_timeout id w' = w'.
Proof.
  intros Hw Hidle w'.
  pose proof (single_pending_cleared w Hw) as Hclear.
  assert (pending w' = ∅) as Hpending.
  { unfold w', evaluateAtCursorDebounced.
    destruct Hidle as [->|(p & -> & ->)]; by cbn [pending log]. }
  split; [done|].
  unfold fire_timeout. by rewrite Hpending, lookup_empty.
Qed.

End Debouncing.

(** *** Worked examples *)

Lemma debounce_single_pending_witness :
  single_pending
    (evaluateAtCursorDebounced 7 (Some Toy.project)
       {| debounceTimer := None; pending := ∅; next_id := 1%positive;
          calls := [] |}).
Proof.
  apply (debounce_single_pending
           (J := Toy.parser) (E := Toy.engine Toy.linear)
           (C := Toy.compiler Toy.linear)
           {| debounceTimer := None; pending := ∅; next_id := 1%positive;
              calls := [] |} 7 (Some Toy.project) 1%positive).
  intros id t Hid. cbn in Hid. rewrite lookup_empty in Hid. discriminate Hid.
Defined.

(** A request, then the file is closed: the evaluation is cancelled. *)
Lemma debounce_idle_request_cancels_witness :
  pending (evaluateAtCursorDebounced 9 None
             (evaluateAtCursorDebounced 7 (Some Toy.project)
                {| debounceTimer := None; pending := ∅; next_id := 1%positive;
                   calls := [] |}))
  = ∅.
Proof.
  apply (debounce_idle_request_cancels
           (J := Toy.parser) (E := Toy.engine Toy.linear)
           (C := Toy.compiler Toy.linear)
           (evaluateAtCursorDebounced 7 (Some Toy.project)
              {| debounceTimer := None; pending := ∅; next_id := 1%positive;
                 calls := [] |})
           9 None 1%positive).
  - intros id t Hid. cbn in Hid.
    destruct (decide (id = 1%positive)) as [->|Hne]; [reflexivity|].
    rewrite lookup_insert_ne in Hid by done.
    rewrite lookup_empty in Hid. discriminate Hid.
  - by left.
Defined.

(** Two requests in a row: only the second is left to run. *)
Lemma debounce_latest_wins_witness :
  pending (evaluateAtCursorDebounced 9 (Some Toy.project)
             (evaluateAtCursorDebounced 7 (Some Toy.project)
                {| debounceTimer := None; pending := ∅; next_id := 1%positive;
                   calls := [] |}))
  = {[ 2%positive := {| delay := 300; captured_cursorLine := 9;
                        captured_cursorFilePath := js "main.ink";
                        captured_project := Toy.project |} ]}.
Proof.
  apply (debounce_latest_wins
           (J := Toy.parser) (E := Toy.engine Toy.linear)
           (C := Toy.compiler Toy.linear)
           (evaluateAtCursorDebounced 7 (Some Toy.project)
              {| debounceTimer := None; pending := ∅; next_id := 1%positive;
                 calls := [] |})
           9 Toy.project Toy.main_ink).
  - intros id t Hid. cbn in Hid.
    destruct (decide (id = 1%positive)) as [->|Hne]; [reflexivity|].
    rewrite lookup_insert_ne in Hid by done.
    rewrite lookup_empty in Hid. discriminate Hid.
  - reflexivity.
Defined.

(** ** Variable snapshotter *)

Section MoreSnapshotter.

Context {J : JSON} {St : Type} {E : Engine St}.

(** X19: The snapshot is the empty mapping, and no exception escapes, whenever
    the engine's variable accessor is unusable ([story.variablesState]
    missing, or [GetVariableWithName] not a function) or the serialised state
    is: a falsy string, text that [JSON.parse] rejects, the JSON [null], or a
    document without an object or array under [variablesState]. *)
Theorem snapshot_empty_when_unusable (story : St) :
  (variablesState story = None -> snapshot_vars story = ∅) /\
  (forall vs, variablesState story = Some vs ->
     GetVariableWithName vs = None -> snapshot_vars story = ∅) /\
  (forall st jsonStr,
     state story = Some st -> ToJson st = Some (Ret jsonStr) ->
     str_truthy jsonStr = false -> snapshot_vars story = ∅) /\
  (forall st text,
     state story = Some st -> ToJson st = Some (Ret (Some text)) ->
     (exists e, JSON_parse text = Throw e) \/
     JSON_parse text = Ret JNull \/
     (exists doc, JSON_parse text = Ret doc /\
        match doc with
        | JObject fields =>
            match field_lookup (js "variablesState") fields with
            | Some (JObject _) | Some (JArray _) => False
            | _ => True
            end
        | _ => True
        end) ->
     snapshot_vars story = ∅).
Proof.
  unfold snapshot_vars, snapshot_try, snapshot_prepare.
  split; [|split; [|split]].
  - intros Hvs. rewrite Hvs. by repeat case_match.
  - intros vs Hvs Hget. rewrite Hvs, Hget. by repeat case_match.
  - intros st jsonStr Hst Hjson Hfalsy. by rewrite Hst, Hjson, Hfalsy.
  - intros st text Hst Hjson Hdoc. rewrite Hst, Hjson.
    destruct text as [|c text]; [done|]. cbn [str_truthy negb default].
    unfold default. cbn [from_option id].
    destruct Hdoc as [[e ->]|[->|(doc & -> & Hdoc)]]; [done|done|].
    destruct doc as [| | | | |fields]; try done.
    destruct (field_lookup _ fields) as [[]|]; done.
Qed.

(** X20: How values appear, for a name other than [__proto__] and as long
    as no variable called [__proto__] reads as an object: a variable the
    accessor knows nothing about (null or undefined) still appears, as null;
    a boxed value appears as its content, unwrapped one level; a boxed value
    whose content cannot be read, and a variable whose read throws, are
    skipped; a plain value appears as it is. *)
Theorem snapshot_values (story : St) (names : list jsstring)
    (getVarWithName : jsstring -> outcome JsVal) (name : jsstring) :
  snapshot_prepare story = Ret (Some (names, getVarWithName)) ->
  name ∈ names ->
  name <> proto_key ->
  (forall v, proto_key ∈ names ->
     read_variable getVarWithName proto_key = Ret v -> is_object v = false) ->
  (getVarWithName name = Ret VNull \/ getVarWithName name = Ret VUndefined ->
   snapshot_vars story !! name = Some VNull) /\
  (forall content, getVarWithName name = Ret (VBoxed (Ret content)) ->
     snapshot_vars story !! name = Some content) /\
  (forall e, getVarWithName name = Ret (VBoxed (Throw e)) ->
     snapshot_vars story !! name = None) /\
  (forall val, getVarWithName name = Ret val ->
     match val with
     | VBool _ | VNum _ | VStr _ | VObject None => True
     | _ => False
     end ->
     snapshot_vars story !! name = Some val) /\
  (forall e, getVarWithName name = Throw e ->
     snapshot_vars story !! name = None).
Proof.
  intros Hprep Hin Hname Hkey.
  assert (snapshot_vars story !! name =
          match read_variable getVarWithName name with
          | Ret v => Some v
          | Throw _ => None
          end) as ->.
  { unfold snapshot_vars, snapshot_try. rewrite Hprep. cbn [fst].
    destruct (snapshot_loop_lookup getVarWithName names empty_object)
      as [_ Hlookup]; [done|done|].
    rewrite (Hlookup name Hname), decide_True by done.
    cbn [own empty_object]. by rewrite lookup_empty. }
  unfold read_variable. repeat split.
  - by intros [-> | ->].
  - by intros content ->.
  - by intros e ->.
  - intros val -> Hval. by destruct val as [| | | | | |[]].
  - by intros e ->.
Qed.

(** X22: A variable called [__proto__] whose value is neither an object nor
    null never appears in the snapshot, although its read succeeds: the
    assignment reaches the accessor of [Object.prototype], which ignores such
    a value. *)
Theorem snapshot_drops_proto (story : St) (names : list jsstring)
    (getVarWithName : jsstring -> outcome JsVal) :
  snapshot_prepare story = Ret (Some (names, getVarWithName)) ->
  (forall v, read_variable getVarWithName proto_key = Ret v ->
     is_object v = false /\ v <> VNull) ->
  snapshot_vars story !! proto_key = None.
Proof.
  intros Hprep Hkey.
  unfold snapshot_vars, snapshot_try. rewrite Hprep. cbn [fst].
  by apply snapshot_loop_proto_key.
Qed.

End MoreSnapshotter.

(** *** Worked examples *)

Lemma snapshot_empty_when_unusable_witness :
  snapshot_vars (J := Toy.parser_failing) (E := Toy.engine Toy.linear) 1%nat
    = ∅.
Proof.
  destruct (snapshot_empty_when_unusable
              (J := Toy.parser_failing) (E := Toy.engine Toy.linear) 1%nat)
    as (_ & _ & _ & Hdoc).
  apply (Hdoc _ _ eq_refl eq_refl). left. by eexists.
Defined.

Lemma snapshot_values_witness :
  snapshot_vars (J := Toy.parser) (E := Toy.engine Toy.corrupt) 0%nat
    !! [Toy.bg] = Some (VStr (js "a")).
Proof.
  assert (proto_key ∉ [[Toy.x]; [Toy.bg]]) as Hfresh.
  { rewrite !not_elem_of_cons. repeat split; [done|done|apply not_elem_of_nil]. }
  destruct (snapshot_values (J := Toy.parser) (E := Toy.engine Toy.corrupt)
              0%nat [[Toy.x]; [Toy.bg]] _ [Toy.bg] eq_refl)
    as (_ & Hboxed & _).
  - apply list_elem_of_further, list_elem_of_here.
  - done.
  - intros v Hin. by destruct (Hfresh Hin).
  - exact (Hboxed _ eq_refl).
Defined.

Lemma snapshot_drops_proto_witness :
  snapshot_vars (J := Shadowed.parser) (E := Shadowed.engine) tt
    !! proto_key = None.
Proof.
  apply (snapshot_drops_proto (J := Shadowed.parser) (E := Shadowed.engine)
           tt [js "x"; proto_key; js "y"] _ eq_refl).
  intros v Hread. vm_compute in Hread.
  injection Hread as <-. split; [reflexivity|discriminate].
Defined.

(** ** Presentation *)

Section Presentation.

Context {H : SceneView.Host}.
Context {J : JSON} {St : Type} {E : Engine St} {C : Compiler St}.

Lemma evaluateAtLine_last_view (cursorLine : Z)
    (cursorFilePath : option jsstring) (project : option Project) :
  exists pre view,
    evaluateAtLine cursorLine cursorFilePath project = pre ++ [view] /\
    Forall (fun c => is_view c = false) pre /\
    is_view view = true.
Proof.
  unfold evaluateAtLine.
  destruct project as [p|]; [|by exists [], SceneView_clear].
  destruct (mainInk p) as [main|]; [|by exists [], SceneView_clear].
  destruct (Compile _ _ _) as [story|e].
  - destruct (errors _ _ _) as [[|err errs]|].
    + destruct (runToCursor _ _ _) as [s' [vars|e]].
      * eexists [_; _], _. repeat split; repeat constructor.
      * eexists [_; _], _. repeat split; repeat constructor.
    + eexists [_], _. repeat split; repeat constructor.
    + destruct (runToCursor _ _ _) as [s' [vars|e]].
      * eexists [_; _], _. repeat split; repeat constructor.
      * eexists [_; _], _. repeat split; repeat constructor.
  - eexists [_], _. repeat split; repeat constructor.
Qed.

Lemma perform_not_view (page : SceneView.Page) (pre : list call) :
  Forall (fun c => is_view c = false) pre ->
  foldl SceneView.perform page pre = page.
Proof.
  induction 1 as [|c pre Hc _ IH]; [done|].
  cbn [foldl]. by destruct c.
Qed.

(** X21: What the page shows after an evaluation, when it has both panels:
    exactly one of them is visible; the error panel is visible exactly when
    the evaluation ended in [showError], and then its text is not empty (an
    empty message becomes "Unknown error") while the variables panel is
    emptied; otherwise the error text is cleared. *)
Theorem evaluateAtLine_shows_one_panel (cursorLine : Z)
    (cursorFilePath : option jsstring) (project : option Project)
    (page : SceneView.Page) (el : SceneView.VariablesEl)
    (errEl : SceneView.ErrorEl) :
  SceneView.variablesEl page = Some el ->
  SceneView.errorEl page = Some errEl ->
  let trace := evaluateAtLine cursorLine cursorFilePath project in
  exists el' errEl',
    foldl SceneView.perform page trace =
      {| SceneView.variablesEl := Some el'; SceneView.errorEl := Some errEl' |} /\
    SceneView.variables_hidden el' = negb (SceneView.error_hidden errEl') /\
    (SceneView.error_hidden errEl' = false <->
     exists message, last trace = Some (SceneView_showError message)) /\
    (SceneView.error_hidden errEl' = false ->
     SceneView.textContent errEl' <> [] /\ SceneView.innerHTML el' = []) /\
    (SceneView.error_hidden errEl' = true -> SceneView.textContent errEl' = []).
Proof.
  intros Hel Herr trace.
  destruct (evaluateAtLine_last_view cursorLine cursorFilePath project)
    as (pre & view & Htrace & Hpre & Hview).
  fold trace in Htrace. rewrite Htrace, foldl_app, last_snoc.
  rewrite (perform_not_view _ _ Hpre). cbn [foldl].
  destruct view as [|message|variables| |]; try discriminate Hview;
    cbn [SceneView.perform].
  - unfold SceneView.clear. rewrite Hel, Herr.
    eexists _, _. split; [reflexivity|]. cbn. repeat split; try done.
    by intros [m [=]].
  - unfold SceneView.showError. rewrite Hel, Herr.
    eexists _, _. split; [reflexivity|]. cbn. repeat split; try done.
    + intros _. by exists message.
    + destruct message; cbn; by intros [=].
  - unfold SceneView.updateScene. rewrite Hel, Herr.
    eexists _, _. split; [reflexivity|]. cbn. repeat split; try done.
    by intros [m [=]].
Qed.

End Presentation.

(** *** Worked examples *)

Lemma evaluateAtLine_shows_one_panel_witness :
  exists el' errEl',
    foldl (SceneView.perform (H := plain_host)) idle_page
      (evaluateAtLine (J := Toy.parser) (E := Toy.engine Toy.crashing)
         (C := Toy.compiler Toy.crashing) 5 None (Some Toy.project))
    = {| SceneView.variablesEl := Some el'; SceneView.errorEl := Some errEl' |} /\
    SceneView.error_hidden errEl' = false /\
    SceneView.variables_hidden el' = true.
Proof.
  destruct (evaluateAtLine_shows_one_panel
              (H := plain_host)
              (J := Toy.parser) (E := Toy.engine Toy.crashing)
              (C := Toy.compiler Toy.crashing) 5 None (Some Toy.project)
              idle_page _ _ eq_refl eq_refl)
    as (el' & errEl' & Hpage & Hone & Hshown & _).
  exists el', errEl'. split; [exact Hpage|].
  assert (SceneView.error_hidden errEl' = false) as Hvisible.
  { apply Hshown. eexists. vm_compute. reflexivity. }
  split; [exact Hvisible|]. by rewrite Hone, Hvisible.
Defined.
